(** * SceneContainer: the pick-and-select core of the vocabulary scene

    A shallow embedding of [src/components/SceneContainer.vue]: the pointer
    conversion of [onPointerMove], the pick of [getIntersects], the selection
    written by [onClick], the viewport update of [handleResize] and the
    component life cycle of [onMounted] / [onUnmounted].

    Conventions of the embedding.
    - A JavaScript number that the host hands to the component (pixel
      coordinates, rectangle sides, window sizes) is a rational [Q].  A number
      the component computes with a division is a [jsnum]: [Some q] for a
      finite value, [None] for a value that is not finite ([NaN] or an
      infinity, which is what a division by zero yields and what every later
      [*], [+], [-] keeps).
    - A JavaScript object used as a bag of properties ([mesh.userData]) is a
      [gmap string JsValue].
    - three.js is not part of the repository.  What the component relies on is
      taken as follows: the geometric test of one mesh against one ray is a
      parameter ([meshRaycast]); [Raycaster.intersectObjects] visits the
      objects it is given in order, collects their intersections and sorts
      them by ascending distance with the (stable) array sort.
    - An exception thrown by a handler is [None] in the option monad. *)

From Stdlib Require Import QArith Qabs Lqa List Permutation Sorted.
From stdpp Require Import gmap strings list fin_maps.

Local Open Scope Q_scope.

(** ** Numbers *)

Definition jsnum : Type := option Q.

(** [a / b] on finite operands: finite exactly when the divisor is not zero. *)
Definition js_div (a b : Q) : jsnum :=
  if Qeq_bool b 0 then None else Some (a / b).

Definition jsnum_eq (a b : jsnum) : Prop :=
  match a, b with
  | Some p, Some q => p == q
  | None, None => True
  | _, _ => False
  end.

(** ** Host environment: the window and the surface rectangle *)

Record Window := { innerWidth : Q; innerHeight : Q }.

Record DOMRect := { left : Q; top : Q; width : Q; height : Q }.

Record Host := { window : Window; boundingClientRect : DOMRect }.

Definition rect_eq (r1 r2 : DOMRect) : Prop :=
  left r1 == left r2 /\ top r1 == top r2 /\
  width r1 == width r2 /\ height r1 == height r2.

(** ** Vectors *)

Record Vector2 := { x : jsnum; y : jsnum }.

Record Vector3 := { vx : Q; vy : Q; vz : Q }.

Definition vector2_eq (a b : Vector2) : Prop :=
  jsnum_eq (x a) (x b) /\ jsnum_eq (y a) (y b).

(** ** Pixel to normalized device coordinates

    The two assignments of [onPointerMove]:
    [mouse.x = ((event.clientX - rect.left) / rect.width) * 2 - 1] and
    [mouse.y = -((event.clientY - rect.top) / rect.height) * 2 + 1]. *)

Definition toNormalizedCoordinates (rect : DOMRect) (clientX clientY : Q) : Vector2 :=
  {| x := (fun t => t * 2 - 1) <$> js_div (clientX - left rect) (width rect);
     y := (fun t => - t * 2 + 1) <$> js_div (clientY - top rect) (height rect) |}.

(** A pixel lies inside the surface when the surface covers it: the sides
    are half open, as in hit testing, so a surface without area covers no
    pixel. *)
Definition inside (rect : DOMRect) (clientX clientY : Q) : Prop :=
  left rect <= clientX /\ clientX < left rect + width rect /\
  top rect <= clientY /\ clientY < top rect + height rect.

(** ** JavaScript values and property bags *)

Inductive JsValue :=
| JString (s : string)
| JNumber (q : Q)
| JBool (b : bool)
| JArray (l : list Q).

Definition js_truthy (v : JsValue) : bool :=
  match v with
  | JString s => negb (String.eqb s EmptyString)
  | JNumber q => negb (Qeq_bool q 0)
  | JBool b => b
  | JArray _ => true
  end.

(** [o?.k] used as a condition: a missing property is [undefined], falsy. *)
Definition truthy_prop (o : gmap string JsValue) (k : string) : bool :=
  match o !! k with
  | Some v => js_truthy v
  | None => false
  end.

(** ** The template of an interactable object ([interface InteractableObject]) *)

Inductive ShapeType := box | sphere.

Definition ShapeType_string (t : ShapeType) : string :=
  match t with box => "box" | sphere => "sphere" end.

Module InteractableObject.
Record t := {
  id : string;
  name : string;
  translation : string;
  type : ShapeType;
  position : Q * Q * Q;
  color : Q;
  scale : option (Q * Q * Q)
}.
End InteractableObject.

Definition triple_array (p : Q * Q * Q) : JsValue :=
  let '(a, b, c) := p in JArray [a; b; c].

(** The object spread [{ ...obj }]: the own properties of the template; the
    optional [scale] is a property only when it is present. *)
Definition spread (obj : InteractableObject.t) : gmap string JsValue :=
  let props : gmap string JsValue :=
    <["id" := JString (InteractableObject.id obj)]>
    (<["name" := JString (InteractableObject.name obj)]>
    (<["translation" := JString (InteractableObject.translation obj)]>
    (<["type" := JString (ShapeType_string (InteractableObject.type obj))]>
    (<["position" := triple_array (InteractableObject.position obj)]>
    (<["color" := JNumber (InteractableObject.color obj)]> ∅))))) in
  match InteractableObject.scale obj with
  | Some s => <["scale" := triple_array s]> props
  | None => props
  end.

(** [{ ...obj, isInteractable: true }], what [populateObjects] stores in
    [mesh.userData]. *)
Definition meshUserData (obj : InteractableObject.t) : gmap string JsValue :=
  <["isInteractable" := JBool true]> (spread obj).

Definition tableData : InteractableObject.t :=
  {| InteractableObject.id := "table"; InteractableObject.name := "Table";
     InteractableObject.translation := "机 (Tsukue)";
     InteractableObject.type := box;
     InteractableObject.position := (0, 0.75, 0);
     InteractableObject.color := 0x8B4513;
     InteractableObject.scale := Some (2, 1.5, 1.5) |}.

Definition chairData : InteractableObject.t :=
  {| InteractableObject.id := "chair"; InteractableObject.name := "Chair";
     InteractableObject.translation := "椅子 (Isu)";
     InteractableObject.type := box;
     InteractableObject.position := (0, 0.5, 1.5);
     InteractableObject.color := 0xA0522D;
     InteractableObject.scale := Some (0.8, 1, 0.8) |}.

Definition lampData : InteractableObject.t :=
  {| InteractableObject.id := "lamp"; InteractableObject.name := "Lamp";
     InteractableObject.translation := "ランプ (Ranpu)";
     InteractableObject.type := sphere;
     InteractableObject.position := (1.2, 1.8, -0.2);
     InteractableObject.color := 0xFFFFE0;
     InteractableObject.scale := Some (0.3, 0.3, 0.3) |}.

Definition plantData : InteractableObject.t :=
  {| InteractableObject.id := "plant"; InteractableObject.name := "Plant";
     InteractableObject.translation := "植物 (Shokubutsu)";
     InteractableObject.type := box;
     InteractableObject.position := (-2, 0.5, -2);
     InteractableObject.color := 0x228B22;
     InteractableObject.scale := Some (0.5, 1, 0.5) |}.

Definition objectsData : list InteractableObject.t :=
  [tableData; chairData; lampData; plantData].

(** ** Scene graph *)

Inductive Geometry :=
| PlaneGeometry (w h : Q)
| BoxGeometry (w h d : Q)
| SphereGeometry (radius : Q) (widthSegments heightSegments : nat).

Inductive Side := FrontSide | DoubleSide.

Record MeshStandardMaterial := { materialColor : Q; side : Side }.

Inductive Object3DKind :=
| AmbientLight (lightColor intensity : Q)
| DirectionalLight (lightColor intensity : Q)
| Mesh (geometry : Geometry) (material : MeshStandardMaterial).

(** Euler angles, in units of [Math.PI]. *)
Record Euler := { ex : Q; ey : Q; ez : Q }.

Module Object3D.
Record t := {
  kind : Object3DKind;
  position : Vector3;
  rotation : Euler;
  scale : Vector3;
  userData : gmap string JsValue
}.
End Object3D.

(** Equality of scene objects is decidable. *)
#[global] Instance Q_eq_dec : EqDecision Q.
Proof. solve_decision. Defined.
#[global] Instance JsValue_eq_dec : EqDecision JsValue.
Proof. solve_decision. Defined.
#[global] Instance Vector3_eq_dec : EqDecision Vector3.
Proof. solve_decision. Defined.
#[global] Instance Euler_eq_dec : EqDecision Euler.
Proof. solve_decision. Defined.
#[global] Instance Geometry_eq_dec : EqDecision Geometry.
Proof. solve_decision. Defined.
#[global] Instance Side_eq_dec : EqDecision Side.
Proof. solve_decision. Defined.
#[global] Instance MeshStandardMaterial_eq_dec : EqDecision MeshStandardMaterial.
Proof. solve_decision. Defined.
#[global] Instance Object3DKind_eq_dec : EqDecision Object3DKind.
Proof. solve_decision. Defined.
#[global] Instance Object3D_eq_dec : EqDecision Object3D.t.
Proof. solve_decision. Defined.

Definition vec3 (a b c : Q) : Vector3 := {| vx := a; vy := b; vz := c |}.

(** A freshly constructed object: at the origin, not rotated, unit scale,
    [userData = {}]. *)
Definition newObject3D (k : Object3DKind) : Object3D.t :=
  {| Object3D.kind := k;
     Object3D.position := vec3 0 0 0;
     Object3D.rotation := {| ex := 0; ey := 0; ez := 0 |};
     Object3D.scale := vec3 1 1 1;
     Object3D.userData := ∅ |}.

Definition set_position (p : Vector3) (o : Object3D.t) : Object3D.t :=
  {| Object3D.kind := Object3D.kind o; Object3D.position := p;
     Object3D.rotation := Object3D.rotation o; Object3D.scale := Object3D.scale o;
     Object3D.userData := Object3D.userData o |}.

Definition set_rotation (r : Euler) (o : Object3D.t) : Object3D.t :=
  {| Object3D.kind := Object3D.kind o; Object3D.position := Object3D.position o;
     Object3D.rotation := r; Object3D.scale := Object3D.scale o;
     Object3D.userData := Object3D.userData o |}.

Definition set_scale (s : Vector3) (o : Object3D.t) : Object3D.t :=
  {| Object3D.kind := Object3D.kind o; Object3D.position := Object3D.position o;
     Object3D.rotation := Object3D.rotation o; Object3D.scale := s;
     Object3D.userData := Object3D.userData o |}.

Definition set_userData (u : gmap string JsValue) (o : Object3D.t) : Object3D.t :=
  {| Object3D.kind := Object3D.kind o; Object3D.position := Object3D.position o;
     Object3D.rotation := Object3D.rotation o; Object3D.scale := Object3D.scale o;
     Object3D.userData := u |}.

Record Scene := { background : Q; children : list Object3D.t }.

(** [scene.add(o)] appends to [scene.children]. *)
Definition scene_add (o : Object3D.t) (s : Scene) : Scene :=
  {| background := background s; children := children s ++ [o] |}.

(** *** [createRoom] *)

Definition floor : Object3D.t :=
  set_rotation {| ex := - (1 # 2); ey := 0; ez := 0 |}
    (newObject3D (Mesh (PlaneGeometry 10 10)
                       {| materialColor := 0xeeeeee; side := DoubleSide |})).

Definition wallMat : MeshStandardMaterial :=
  {| materialColor := 0xffffff; side := DoubleSide |}.

Definition backWall : Object3D.t :=
  set_position (vec3 0 2.5 (-5)) (newObject3D (Mesh (PlaneGeometry 10 5) wallMat)).

Definition leftWall : Object3D.t :=
  set_position (vec3 (-5) 2.5 0)
    (set_rotation {| ex := 0; ey := 1 # 2; ez := 0 |}
       (newObject3D (Mesh (PlaneGeometry 10 5) wallMat))).

Definition createRoom (s : Scene) : Scene :=
  scene_add leftWall (scene_add backWall (scene_add floor s)).

(** *** [populateObjects] *)

Definition vec3_of (p : Q * Q * Q) : Vector3 :=
  let '(a, b, c) := p in vec3 a b c.

Definition makeMesh (obj : InteractableObject.t) : Object3D.t :=
  let geometry :=
    match InteractableObject.type obj with
    | box => BoxGeometry 1 1 1
    | sphere => SphereGeometry 1 32 32
    end in
  let material := {| materialColor := InteractableObject.color obj; side := FrontSide |} in
  let mesh := newObject3D (Mesh geometry material) in
  let mesh := set_position (vec3_of (InteractableObject.position obj)) mesh in
  let mesh :=
    match InteractableObject.scale obj with
    | Some s => set_scale (vec3_of s) mesh
    | None => mesh
    end in
  set_userData (meshUserData obj) mesh.

Definition populateObjects (s : Scene) : Scene :=
  fold_left (fun sc obj => scene_add (makeMesh obj) sc) objectsData s.

(** The lights [initScene] adds before the room. *)
Definition ambientLight : Object3D.t := newObject3D (AmbientLight 0xffffff 0.5).

Definition directionalLight : Object3D.t :=
  set_position (vec3 5 10 7) (newObject3D (DirectionalLight 0xffffff 0.8)).

(** ** Camera *)

(** The projection matrix, kept as the parameters it was last computed from. *)
Record Projection := { p_fov : Q; p_aspect : jsnum; p_near : Q; p_far : Q }.

Record PerspectiveCamera := {
  fov : Q;
  aspect : jsnum;
  near : Q;
  far : Q;
  cameraPosition : Vector3;
  projectionMatrix : Projection
}.

Definition updateProjectionMatrix (c : PerspectiveCamera) : PerspectiveCamera :=
  {| fov := fov c; aspect := aspect c; near := near c; far := far c;
     cameraPosition := cameraPosition c;
     projectionMatrix := {| p_fov := fov c; p_aspect := aspect c;
                            p_near := near c; p_far := far c |} |}.

(** [new THREE.PerspectiveCamera(fov, aspect, near, far)]: the constructor
    computes the projection before it returns. *)
Definition newPerspectiveCamera (f : Q) (a : jsnum) (n fr : Q) : PerspectiveCamera :=
  updateProjectionMatrix
    {| fov := f; aspect := a; near := n; far := fr;
       cameraPosition := vec3 0 0 0;
       projectionMatrix := {| p_fov := f; p_aspect := a; p_near := n; p_far := fr |} |}.

Definition set_aspect (a : jsnum) (c : PerspectiveCamera) : PerspectiveCamera :=
  {| fov := fov c; aspect := a; near := near c; far := far c;
     cameraPosition := cameraPosition c; projectionMatrix := projectionMatrix c |}.

Definition set_cameraPosition (p : Vector3) (c : PerspectiveCamera) : PerspectiveCamera :=
  {| fov := fov c; aspect := aspect c; near := near c; far := far c;
     cameraPosition := p; projectionMatrix := projectionMatrix c |}.

Definition projection_current (c : PerspectiveCamera) : Prop :=
  projectionMatrix c = {| p_fov := fov c; p_aspect := aspect c;
                          p_near := near c; p_far := far c |}.

Record WebGLRenderer := { size : Q * Q; disposed : bool }.

(** ** Raycaster *)

(** [raycaster.ray].  three.js derives the origin and the direction of the
    ray from the coordinates and the camera handed to [setFromCamera]; the
    model keeps those two. *)
Inductive Ray :=
| DefaultRay
| CameraRay (coords : Vector2) (camera : PerspectiveCamera).

Definition setFromCamera (coords : Vector2) (camera : PerspectiveCamera) : Ray :=
  CameraRay coords camera.

Record Intersection := { distance : Q; object : Object3D.t }.

(** The array sort with comparator [a.distance - b.distance]: ascending and
    stable. *)
Fixpoint insertByDistance (i : Intersection) (l : list Intersection) : list Intersection :=
  match l with
  | [] => [i]
  | j :: l' =>
      if Qle_bool (distance i) (distance j) then i :: j :: l'
      else j :: insertByDistance i l'
  end.

Definition sortByDistance (l : list Intersection) : list Intersection :=
  fold_right insertByDistance [] l.

(** Sorted by distance, nearest first. *)
Definition ascending : list Intersection -> Prop :=
  StronglySorted (fun a b => distance a <= distance b).

(** What one call of [intersectObjects] has done so far: the objects whose
    [raycast] method it has called, and the intersections collected. *)
Record Intersecting := { tested : list Object3D.t; found : list Intersection }.

(** [userData?.isInteractable], the test of the filter in [getIntersects]. *)
Definition isInteractable (o : Object3D.t) : bool :=
  truthy_prop (Object3D.userData o) "isInteractable".

(** ** Component state *)

Inductive HTMLDivElement := SceneDiv.

Inductive Cursor := CursorDefault | CursorPointer.

Inductive Phase := Created | Mounted | Unmounted.

Record State := {
  host : Host;
  phase : Phase;
  container : option HTMLDivElement;
  scene : option Scene;
  camera : option PerspectiveCamera;
  renderer : option WebGLRenderer;
  animating : bool;
  listeners : bool;
  raycaster : Ray;
  mouse : Vector2;
  selectedObject : option (gmap string JsValue);
  cursor : Cursor
}.

Definition set_host (h : Host) (s : State) : State :=
  {| host := h; phase := phase s; container := container s; scene := scene s;
     camera := camera s; renderer := renderer s; animating := animating s;
     listeners := listeners s; raycaster := raycaster s; mouse := mouse s;
     selectedObject := selectedObject s; cursor := cursor s |}.

Definition set_lifecycle (p : Phase) (c : option HTMLDivElement) (s : State) : State :=
  {| host := host s; phase := p; container := c; scene := scene s;
     camera := camera s; renderer := renderer s; animating := animating s;
     listeners := listeners s; raycaster := raycaster s; mouse := mouse s;
     selectedObject := selectedObject s; cursor := cursor s |}.

Definition set_scene (sc : option Scene) (s : State) : State :=
  {| host := host s; phase := phase s; container := container s; scene := sc;
     camera := camera s; renderer := renderer s; animating := animating s;
     listeners := listeners s; raycaster := raycaster s; mouse := mouse s;
     selectedObject := selectedObject s; cursor := cursor s |}.

Definition set_camera (c : option PerspectiveCamera) (s : State) : State :=
  {| host := host s; phase := phase s; container := container s; scene := scene s;
     camera := c; renderer := renderer s; animating := animating s;
     listeners := listeners s; raycaster := raycaster s; mouse := mouse s;
     selectedObject := selectedObject s; cursor := cursor s |}.

Definition set_renderer (r : option WebGLRenderer) (s : State) : State :=
  {| host := host s; phase := phase s; container := container s; scene := scene s;
     camera := camera s; renderer := r; animating := animating s;
     listeners := listeners s; raycaster := raycaster s; mouse := mouse s;
     selectedObject := selectedObject s; cursor := cursor s |}.

Definition set_animating (b : bool) (s : State) : State :=
  {| host := host s; phase := phase s; container := container s; scene := scene s;
     camera := camera s; renderer := renderer s; animating := b;
     listeners := listeners s; raycaster := raycaster s; mouse := mouse s;
     selectedObject := selectedObject s; cursor := cursor s |}.

Definition set_listeners (b : bool) (s : State) : State :=
  {| host := host s; phase := phase s; container := container s; scene := scene s;
     camera := camera s; renderer := renderer s; animating := animating s;
     listeners := b; raycaster := raycaster s; mouse := mouse s;
     selectedObject := selectedObject s; cursor := cursor s |}.

Definition set_raycaster (r : Ray) (s : State) : State :=
  {| host := host s; phase := phase s; container := container s; scene := scene s;
     camera := camera s; renderer := renderer s; animating := animating s;
     listeners := listeners s; raycaster := r; mouse := mouse s;
     selectedObject := selectedObject s; cursor := cursor s |}.

Definition set_mouse (m : Vector2) (s : State) : State :=
  {| host := host s; phase := phase s; container := container s; scene := scene s;
     camera := camera s; renderer := renderer s; animating := animating s;
     listeners := listeners s; raycaster := raycaster s; mouse := m;
     selectedObject := selectedObject s; cursor := cursor s |}.

Definition set_selectedObject (o : option (gmap string JsValue)) (s : State) : State :=
  {| host := host s; phase := phase s; container := container s; scene := scene s;
     camera := camera s; renderer := renderer s; animating := animating s;
     listeners := listeners s; raycaster := raycaster s; mouse := mouse s;
     selectedObject := o; cursor := cursor s |}.

Definition set_cursor (c : Cursor) (s : State) : State :=
  {| host := host s; phase := phase s; container := container s; scene := scene s;
     camera := camera s; renderer := renderer s; animating := animating s;
     listeners := listeners s; raycaster := raycaster s; mouse := mouse s;
     selectedObject := selectedObject s; cursor := c |}.

(** The component right after [setup]: nothing of the scene exists yet,
    [new THREE.Vector2()] is [(0, 0)], [ref(null)] twice. *)
Definition setup (h : Host) : State :=
  {| host := h; phase := Created; container := None; scene := None;
     camera := None; renderer := None; animating := false; listeners := false;
     raycaster := DefaultRay; mouse := {| x := Some 0; y := Some 0 |};
     selectedObject := None; cursor := CursorDefault |}.

(** What the host does to the component. *)
Inductive Event :=
| Mount
| Unmount
| Resize
| MouseMove (clientX clientY : Q)
| Click (clientX clientY : Q)
| AnimationFrame (orbit : Vector3)
| HostChange (h : Host).

(** Every object reference is truthy, the empty object [{}] included: the
    two operands of the guard in [onClick]. *)
Definition truthy_object (o : Object3D.t) : bool := true.
Definition truthy_bag (u : gmap string JsValue) : bool := true.

Section Pick.

(** The intersection test of three.js for one mesh: the distances, from
    the ray origin, of the points where the ray meets the mesh. *)
Variable meshRaycast : Ray -> Object3D.t -> list Q.

(** [object.raycast(raycaster, intersects)]: a mesh pushes its
    intersections, a light has the empty method of [Object3D]. *)
Definition raycast (ray : Ray) (o : Object3D.t) : list Intersection :=
  match Object3D.kind o with
  | Mesh _ _ => map (fun d => {| distance := d; object := o |}) (meshRaycast ray o)
  | AmbientLight _ _ | DirectionalLight _ _ => []
  end.

Definition intersectObject (ray : Ray) (acc : Intersecting) (o : Object3D.t) : Intersecting :=
  {| tested := tested acc ++ [o]; found := found acc ++ raycast ray o |}.

(** [raycaster.intersectObjects(objects)]: every object in turn, then the
    sort. *)
Definition intersectObjects (ray : Ray) (objects : list Object3D.t) : Intersecting :=
  let acc := fold_left (intersectObject ray) objects {| tested := []; found := [] |} in
  {| tested := tested acc; found := sortByDistance (found acc) |}.

(** The pick as a function of its three inputs: the body of
    [getIntersects] once [mouse], [camera] and [scene.children] are read. *)
Definition intersects (coords : Vector2) (cam : PerspectiveCamera)
           (objects : list Object3D.t) : list Intersection :=
  List.filter (fun i => isInteractable (object i))
              (found (intersectObjects (setFromCamera coords cam) objects)).

Definition pick (coords : Vector2) (cam : PerspectiveCamera)
           (objects : list Object3D.t) : option Object3D.t :=
  object <$> head (intersects coords cam objects).

(** [getIntersects]: reads the globals [mouse], [camera] and [scene],
    overwrites [raycaster.ray].  With [camera] or [scene] undefined the
    property access throws. *)
Definition getIntersects (s : State) : option (State * list Intersection) :=
  cam ← camera s;
  sc ← scene s;
  Some (set_raycaster (setFromCamera (mouse s) cam) s,
        intersects (mouse s) cam (children sc)).

Definition checkIntersection (s : State) : option State :=
  '(s1, hits) ← getIntersects s;
  Some (set_cursor (if (0 <? length hits)%nat then CursorPointer else CursorDefault) s1).

Definition onPointerMove (clientX clientY : Q) (s : State) : option State :=
  match container s with
  | None => Some s
  | Some _ =>
      let rect := boundingClientRect (host s) in
      checkIntersection (set_mouse (toNormalizedCoordinates rect clientX clientY) s)
  end.

(** [onClick] takes no argument: the event is not looked at. *)
Definition onClick (s : State) : option State :=
  '(s1, hits) ← getIntersects s;
  match hits with
  | intersect :: _ =>
      if truthy_object (object intersect) && truthy_bag (Object3D.userData (object intersect))
      then Some (set_selectedObject (Some (Object3D.userData (object intersect))) s1)
      else Some s1
  | [] => Some (set_selectedObject None s1)
  end.

(** One frame: [requestAnimationFrame], [controls.update()] (the orbit
    controls may move the camera), [renderer.render]. *)
Definition animate (orbit : option Vector3) (s : State) : option State :=
  cam ← camera s;
  _ ← renderer s;
  _ ← scene s;
  let cam' := match orbit with Some p => set_cameraPosition p cam | None => cam end in
  Some (set_animating true (set_camera (Some cam') s)).

Definition initScene (s : State) : option State :=
  match container s with
  | None => Some s
  | Some _ =>
      let w := window (host s) in
      let sc := {| background := 0xf0f0f0; children := [] |} in
      let cam := set_cameraPosition (vec3 0 2 5)
                   (newPerspectiveCamera 75 (js_div (innerWidth w) (innerHeight w)) 0.1 1000) in
      let rend := {| size := (innerWidth w, innerHeight w); disposed := false |} in
      let sc := scene_add directionalLight (scene_add ambientLight sc) in
      let sc := populateObjects (createRoom sc) in
      animate None (set_renderer (Some rend) (set_camera (Some cam) (set_scene (Some sc) s)))
  end.

Definition handleResize (s : State) : State :=
  match camera s, renderer s with
  | Some cam, Some rend =>
      let w := window (host s) in
      let cam' := updateProjectionMatrix (set_aspect (js_div (innerWidth w) (innerHeight w)) cam) in
      set_renderer (Some {| size := (innerWidth w, innerHeight w); disposed := disposed rend |})
                   (set_camera (Some cam') s)
  | _, _ => s
  end.

Definition onMounted (s : State) : option State :=
  s1 ← initScene s;
  Some (set_listeners true s1).

Definition onUnmounted (s : State) : option State :=
  let s1 := set_animating false (set_listeners false s) in
  rend ← renderer s1;
  Some (set_renderer (Some {| size := size rend; disposed := true |}) s1).

(** Delivery of one event.  The framework binds the template ref before it
    runs the mounted hook and clears it on unmount; a handler runs only
    while its listener is registered, a frame only while one is requested. *)
Definition dispatch (e : Event) (s : State) : option State :=
  match e with
  | Mount =>
      match phase s with
      | Created => onMounted (set_lifecycle Mounted (Some SceneDiv) s)
      | _ => Some s
      end
  | Unmount =>
      match phase s with
      | Mounted => onUnmounted (set_lifecycle Unmounted None s)
      | _ => Some s
      end
  | Resize => if listeners s then Some (handleResize s) else Some s
  | MouseMove cx cy => if listeners s then onPointerMove cx cy s else Some s
  | Click _ _ => if listeners s then onClick s else Some s
  | AnimationFrame p => if animating s then animate (Some p) s else Some s
  | HostChange h => Some (set_host h s)
  end.

Fixpoint run (es : list Event) (s : State) : option State :=
  match es with
  | [] => Some s
  | e :: es' => s1 ← dispatch e s; run es' s1
  end.

(** The states the component can be in: [setup] followed by events. *)
Inductive reachable : State -> Prop :=
| reachable_setup (h : Host) : reachable (setup h)
| reachable_step (e : Event) (s s' : State) :
    reachable s -> dispatch e s = Some s' -> reachable s'.

End Pick.

(** ** A sample geometry

    A stand-in for the three.js intersection test, used to run the
    component on concrete inputs: the room planes are met at distance 3 by
    every ray, a box or a sphere placed at [(px, _, pz)] is met, at distances
    [5 - pz] and [5 - pz + 1/2], by the rays whose horizontal coordinate is
    within [1/5] of [px / 5]. *)
Definition sampleRaycast (ray : Ray) (o : Object3D.t) : list Q :=
  match ray with
  | DefaultRay => []
  | CameraRay c _ =>
      match x c, Object3D.kind o with
      | Some mx, Mesh (PlaneGeometry _ _) _ => [3]
      | Some mx, Mesh _ _ =>
          let p := Object3D.position o in
          if Qle_bool (Qabs (mx - vx p / 5)) (1 # 5)
          then [5 - vz p; 5 - vz p + (1 # 2)]
          else []
      | _, _ => []
      end
  end.

Definition sampleHost : Host :=
  {| window := {| innerWidth := 800; innerHeight := 600 |};
     boundingClientRect := {| left := 0; top := 0; width := 800; height := 600 |} |}.

(** The scene [initScene] builds: two lights, the room, the four meshes. *)
Definition mountedScene : Scene :=
  populateObjects
    (createRoom
       (scene_add directionalLight
          (scene_add ambientLight {| background := 0xf0f0f0; children := [] |}))).

(** The camera [initScene] builds in a window of 800 by 600. *)
Definition sampleCamera : PerspectiveCamera :=
  set_cameraPosition (vec3 0 2 5) (newPerspectiveCamera 75 (js_div 800 600) 0.1 1000).

Definition centre : Vector2 := {| x := Some 0; y := Some 0 |}.

(** ** The pick as the specification words it

    Candidates are restricted to the pickable ones first, and only those
    are handed to the intersection test. *)
Definition intersectsPrefiltered (meshRaycast : Ray -> Object3D.t -> list Q)
           (coords : Vector2) (cam : PerspectiveCamera)
           (objects : list Object3D.t) : Intersecting :=
  intersectObjects meshRaycast (setFromCamera coords cam)
                   (List.filter isInteractable objects).

(** ** Invariant of the component *)

(** The selection is empty or the metadata stored on one of the four meshes. *)
Definition selection_ok (sel : option (gmap string JsValue)) : Prop :=
  sel = None \/ exists obj, In obj objectsData /\ sel = Some (meshUserData obj).

Record Inv (s : State) : Prop := {
  inv_created :
    phase s = Created ->
    listeners s = false /\ animating s = false /\ selectedObject s = None;
  inv_built :
    phase s <> Created ->
    scene s = Some mountedScene /\
    (exists cam, camera s = Some cam /\ projection_current cam) /\
    (exists rend, renderer s = Some rend);
  inv_listeners :
    listeners s = true -> phase s = Mounted /\ container s = Some SceneDiv;
  inv_animating : animating s = true -> phase s = Mounted;
  inv_selection : selection_ok (selectedObject s)
}.

(** ** Sample runs *)

(** The state after the given events, from [setup] in a window of 800 by
    600 whose surface fills it, with the sample geometry. *)
Definition after (es : list Event) : State :=
  match run sampleRaycast es (setup sampleHost) with
  | Some s => s
  | None => setup sampleHost
  end.

(** The surface moved and shrank inside the same window. *)
Definition movedHost : Host :=
  {| window := {| innerWidth := 800; innerHeight := 600 |};
     boundingClientRect := {| left := 100; top := 50; width := 400; height := 300 |} |}.

(** The window, and the surface that fills it, went from 800 by 600 to
    1000 by 500. *)
Definition widerHost : Host :=
  {| window := {| innerWidth := 1000; innerHeight := 500 |};
     boundingClientRect := {| left := 0; top := 0; width := 1000; height := 500 |} |}.

(** The window went from 800 by 600 to 1000 by 500, the surface kept its
    rectangle. *)
Definition widerWindow : Host :=
  {| window := {| innerWidth := 1000; innerHeight := 500 |};
     boundingClientRect := {| left := 0; top := 0; width := 800; height := 600 |} |}.

(** ** The info card of the template

    [<div v-if="selectedObject">] with [{{ selectedObject.translation }}] in
    the heading and [{{ selectedObject.name }}] in the paragraph.  An
    interpolation shows a string as it is and [undefined] as the empty
    string; any other value is shown through its conversion to a string,
    which the model keeps as the value. *)
Inductive Rendered :=
| Text (s : string)
| Converted (v : JsValue).

Definition toDisplayString (v : option JsValue) : Rendered :=
  match v with
  | None => Text EmptyString
  | Some (JString s) => Text s
  | Some v => Converted v
  end.

Record InfoCard := { japanese : Rendered; english : Rendered }.

Definition infoCard (s : State) : option InfoCard :=
  match selectedObject s with
  | Some u => Some {| japanese := toDisplayString (u !! "translation");
                      english := toDisplayString (u !! "name") |}
  | None => None
  end.

(** ** What the life cycle keeps in step *)

Record LifecycleInv (s : State) : Prop := {
  life_created :
    phase s = Created ->
    scene s = None /\ camera s = None /\ renderer s = None /\
    container s = None /\ listeners s = false /\ animating s = false;
  life_mounted :
    phase s = Mounted ->
    listeners s = true /\ animating s = true /\ container s = Some SceneDiv /\
    exists rend, renderer s = Some rend /\ disposed rend = false;
  life_unmounted :
    phase s = Unmounted ->
    listeners s = false /\ animating s = false /\ container s = None /\
    exists rend, renderer s = Some rend /\ disposed rend = true
}.

(** The camera parameters [initScene] gives and nothing changes, and the
    aspect ratio in step with the size of the renderer. *)
Definition viewport_consistent (s : State) : Prop :=
  forall cam rend,
    camera s = Some cam -> renderer s = Some rend ->
    aspect cam = js_div (fst (size rend)) (snd (size rend)) /\
    fov cam = 75 /\ near cam = 0.1 /\ far cam = 1000 /\
    projection_current cam.

(** A fifth template for sample runs, placed so that the sample geometry
    meets it at the distances of the table. *)
Definition benchData : InteractableObject.t :=
  {| InteractableObject.id := "bench"; InteractableObject.name := "Bench";
     InteractableObject.translation := "Benchi";
     InteractableObject.type := box;
     InteractableObject.position := (0, 0.4, 0);
     InteractableObject.color := 0x8B4513;
     InteractableObject.scale := None |}.

(** The surface collapsed to no width. *)
Definition collapsedHost : Host :=
  {| window := {| innerWidth := 800; innerHeight := 0 |};
     boundingClientRect := {| left := 0; top := 0; width := 0; height := 600 |} |}.

(** * Properties *)

(** Case analysis on a membership in an explicit list. *)
Ltac split_In H :=
  repeat match type of H with
         | _ \/ _ => destruct H as [<- | H]
         | False => destruct H
         end.

(** ** The conversion of a pixel *)

Lemma js_div_nonzero (a b : Q) : ~ b == 0 -> js_div a b = Some (a / b).
Proof.
  intros Hb. unfold js_div.
  destruct (Qeq_bool b 0) eqn:E; [|reflexivity].
  apply Qeq_bool_iff in E. contradiction.
Qed.

Lemma js_div_zero (a b : Q) : b == 0 -> js_div a b = None.
Proof.
  intros Hb. unfold js_div.
  apply Qeq_bool_iff in Hb. now rewrite Hb.
Qed.

Lemma unit_fraction (a b : Q) : 0 <= a -> a <= b -> 0 < b -> 0 <= a / b /\ a / b <= 1.
Proof.
  intros Ha Hab Hb. split.
  - apply Qle_shift_div_l; [exact Hb|]. lra.
  - apply Qle_shift_div_r; [exact Hb|]. lra.
Qed.

(** On a surface with area, every pixel from one side to the other (both
    sides included) is sent into [-1, 1] on both axes. *)
Lemma toNormalizedCoordinates_bounds (rect : DOMRect) (cx cy : Q) :
  0 < width rect -> 0 < height rect ->
  left rect <= cx <= left rect + width rect ->
  top rect <= cy <= top rect + height rect ->
  exists mx my,
    toNormalizedCoordinates rect cx cy = {| x := Some mx; y := Some my |} /\
    -1 <= mx <= 1 /\ -1 <= my <= 1.
Proof.
  intros Hw Hh [Hx1 Hx2] [Hy1 Hy2].
  unfold toNormalizedCoordinates.
  rewrite !js_div_nonzero by lra. simpl.
  destruct (unit_fraction (cx - left rect) (width rect)) as [A1 A2]; [lra | lra | exact Hw |].
  destruct (unit_fraction (cy - top rect) (height rect)) as [B1 B2]; [lra | lra | exact Hh |].
  eexists _, _. split; [reflexivity|]. split; lra.
Qed.

(** ** The sort of the intersections *)

Lemma in_insertByDistance (i k : Intersection) (l : list Intersection) :
  In k (insertByDistance i l) <-> k = i \/ In k l.
Proof.
  induction l as [|j l IH]; simpl.
  - intuition congruence.
  - destruct (Qle_bool (distance i) (distance j)); simpl; [intuition congruence|].
    rewrite IH. intuition congruence.
Qed.

Lemma in_sortByDistance (k : Intersection) (l : list Intersection) :
  In k (sortByDistance l) <-> In k l.
Proof.
  induction l as [|i l IH]; simpl; [tauto|].
  rewrite in_insertByDistance, IH. intuition congruence.
Qed.

Lemma insertByDistance_ascending (i : Intersection) (l : list Intersection) :
  ascending l -> ascending (insertByDistance i l).
Proof.
  unfold ascending. induction l as [|j l IH]; intros Hl; simpl.
  - constructor; constructor.
  - inversion Hl as [|? ? Hs Hf]; subst.
    destruct (Qle_bool (distance i) (distance j)) eqn:E.
    + apply Qle_bool_iff in E. constructor; [exact Hl|].
      constructor; [exact E|].
      eapply List.Forall_impl; [|exact Hf]. simpl. intros k Hk. lra.
    + assert (distance j <= distance i) as Hji.
      { destruct (Qlt_le_dec (distance j) (distance i)) as [H|H]; [lra|].
        apply Qle_bool_iff in H. congruence. }
      constructor; [apply IH; exact Hs|].
      apply List.Forall_forall. intros k Hk.
      apply in_insertByDistance in Hk as [->|Hk]; [exact Hji|].
      rewrite List.Forall_forall in Hf. apply Hf, Hk.
Qed.

Lemma sortByDistance_ascending (l : list Intersection) : ascending (sortByDistance l).
Proof.
  induction l as [|i l IH]; simpl.
  - constructor.
  - apply insertByDistance_ascending, IH.
Qed.

Lemma filter_ascending (p : Intersection -> bool) (l : list Intersection) :
  ascending l -> ascending (List.filter p l).
Proof.
  unfold ascending. induction 1 as [|j l Hs IH Hf]; simpl; [constructor|].
  destruct (p j); [|exact IH].
  constructor; [exact IH|].
  apply List.Forall_forall. intros k Hk. apply List.filter_In in Hk as [Hk _].
  rewrite List.Forall_forall in Hf. apply Hf, Hk.
Qed.

Lemma ascending_head (h : Intersection) (l : list Intersection) :
  ascending l -> head l = Some h -> forall k, In k l -> distance h <= distance k.
Proof.
  intros Hl Hh k Hk. destruct l as [|j l]; [discriminate|].
  simpl in Hh. injection Hh as ->.
  inversion Hl as [|? ? _ Hf]; subst.
  destruct Hk as [->|Hk]; [lra|].
  rewrite List.Forall_forall in Hf. apply Hf, Hk.
Qed.

(** An element not farther than any element of the list goes in front. *)
Lemma insertByDistance_front (i : Intersection) (l : list Intersection) :
  Forall (fun k => distance i <= distance k) l -> insertByDistance i l = i :: l.
Proof.
  intros Hf. destruct l as [|j l]; [reflexivity|]. simpl.
  inversion Hf as [|? ? Hij _]; subst.
  apply Qle_bool_iff in Hij. now rewrite Hij.
Qed.

(** The sort is stable, so it commutes with a filter. *)
Lemma filter_insertByDistance (p : Intersection -> bool) (i : Intersection)
      (l : list Intersection) :
  ascending l ->
  List.filter p (insertByDistance i l) =
  if p i then insertByDistance i (List.filter p l) else List.filter p l.
Proof.
  unfold ascending. induction 1 as [|j l Hs IH Hf]; simpl.
  - now destruct (p i).
  - destruct (Qle_bool (distance i) (distance j)) eqn:E; simpl.
    + destruct (p i) eqn:Hpi; [|reflexivity].
      symmetry. change (insertByDistance i (List.filter p (j :: l)) = i :: List.filter p (j :: l)).
      apply insertByDistance_front.
      apply Qle_bool_iff in E.
      apply List.Forall_forall. intros k Hk. apply List.filter_In in Hk as [Hk _].
      destruct Hk as [->|Hk]; [exact E|].
      rewrite List.Forall_forall in Hf. specialize (Hf k Hk). simpl in Hf. lra.
    + rewrite IH. destruct (p j) eqn:Hpj, (p i) eqn:Hpi; simpl; try reflexivity.
      now rewrite E.
Qed.

Lemma filter_sortByDistance (p : Intersection -> bool) (l : list Intersection) :
  List.filter p (sortByDistance l) = sortByDistance (List.filter p l).
Proof.
  induction l as [|i l IH]; simpl; [reflexivity|].
  rewrite filter_insertByDistance by apply sortByDistance_ascending.
  rewrite IH. now destruct (p i).
Qed.

Section PickFacts.

Variable meshRaycast : Ray -> Object3D.t -> list Q.

Lemma raycast_object (ray : Ray) (o : Object3D.t) (i : Intersection) :
  In i (raycast meshRaycast ray o) -> object i = o.
Proof.
  unfold raycast. destruct (Object3D.kind o); simpl; try tauto.
  intros Hi. apply List.in_map_iff in Hi as (d & <- & _). reflexivity.
Qed.

Lemma fold_intersectObject (ray : Ray) (objs : list Object3D.t) (acc : Intersecting) :
  fold_left (intersectObject meshRaycast ray) objs acc =
  {| tested := tested acc ++ objs;
     found := found acc ++ List.flat_map (raycast meshRaycast ray) objs |}.
Proof.
  revert acc. induction objs as [|o objs IH]; intros acc; simpl.
  - rewrite !List.app_nil_r. now destruct acc.
  - rewrite IH. simpl. now rewrite <- !List.app_assoc.
Qed.

Lemma intersectObjects_found (ray : Ray) (objs : list Object3D.t) :
  found (intersectObjects meshRaycast ray objs) =
  sortByDistance (List.flat_map (raycast meshRaycast ray) objs).
Proof. unfold intersectObjects. now rewrite fold_intersectObject. Qed.

Lemma intersectObjects_tested (ray : Ray) (objs : list Object3D.t) :
  tested (intersectObjects meshRaycast ray objs) = objs.
Proof. unfold intersectObjects. now rewrite fold_intersectObject. Qed.

Lemma filter_raycast (ray : Ray) (o : Object3D.t) :
  List.filter (fun i => isInteractable (object i)) (raycast meshRaycast ray o) =
  if isInteractable o then raycast meshRaycast ray o else [].
Proof.
  assert (forall l, (forall i, In i l -> object i = o) ->
               List.filter (fun i => isInteractable (object i)) l =
               if isInteractable o then l else []) as H.
  { induction l as [|i l IH]; intros Hl; simpl.
    - now destruct (isInteractable o).
    - rewrite (Hl i) by now left. rewrite IH by (intros; apply Hl; now right).
      now destruct (isInteractable o). }
  apply H. intros i. apply raycast_object.
Qed.

Lemma filter_flat_map_raycast (ray : Ray) (objs : list Object3D.t) :
  List.filter (fun i => isInteractable (object i))
              (List.flat_map (raycast meshRaycast ray) objs) =
  List.flat_map (raycast meshRaycast ray) (List.filter isInteractable objs).
Proof.
  induction objs as [|o objs IH]; simpl; [reflexivity|].
  rewrite List.filter_app, IH, filter_raycast.
  now destruct (isInteractable o).
Qed.

(** Membership in the result of the pick, spelled out. *)
Lemma in_intersects (coords : Vector2) (cam : PerspectiveCamera)
      (objs : list Object3D.t) (i : Intersection) :
  In i (intersects meshRaycast coords cam objs) <->
  In (object i) objs /\ isInteractable (object i) = true /\
  In i (raycast meshRaycast (setFromCamera coords cam) (object i)).
Proof.
  unfold intersects. rewrite List.filter_In, intersectObjects_found, in_sortByDistance.
  rewrite List.in_flat_map. split.
  - intros [(o & Ho & Hi) Hp]. pose proof (raycast_object _ _ _ Hi) as E.
    subst o. tauto.
  - intros (Ho & Hp & Hi). split; [|exact Hp]. now exists (object i).
Qed.

Lemma intersects_ascending (coords : Vector2) (cam : PerspectiveCamera)
      (objs : list Object3D.t) :
  ascending (intersects meshRaycast coords cam objs).
Proof.
  unfold intersects. apply filter_ascending.
  rewrite intersectObjects_found. apply sortByDistance_ascending.
Qed.

End PickFacts.

(** ** The pick *)

Lemma head_In {A : Type} (l : list A) (a : A) : head l = Some a -> In a l.
Proof. destruct l; simpl; [discriminate|]. intros [= ->]. now left. Qed.

Lemma isInteractable_makeMesh (obj : InteractableObject.t) :
  isInteractable (makeMesh obj) = true.
Proof.
  unfold isInteractable, truthy_prop, makeMesh, meshUserData. simpl.
  now rewrite lookup_insert_eq.
Qed.

Lemma structural_not_interactable :
  isInteractable floor = false /\ isInteractable backWall = false /\
  isInteractable leftWall = false /\ isInteractable ambientLight = false /\
  isInteractable directionalLight = false.
Proof. repeat split; reflexivity. Qed.

Section PickTheorems.

Variable meshRaycast : Ray -> Object3D.t -> list Q.

(** The first intersection the pick keeps is not farther than any other
    intersection of a pickable candidate, whatever the order of the
    candidates. *)
Lemma pick_minimal (coords : Vector2) (cam : PerspectiveCamera)
      (objs : list Object3D.t) (h k : Intersection) :
  head (intersects meshRaycast coords cam objs) = Some h ->
  In (object k) objs -> isInteractable (object k) = true ->
  In k (raycast meshRaycast (setFromCamera coords cam) (object k)) ->
  distance h <= distance k.
Proof.
  intros Hh Ho Hp Hk.
  eapply ascending_head; [apply intersects_ascending | exact Hh |].
  apply in_intersects. tauto.
Qed.

Lemma pick_nearest (coords : Vector2) (cam : PerspectiveCamera)
      (objs : list Object3D.t) (e : Object3D.t) (d : Q) :
  In e objs -> isInteractable e = true ->
  In {| distance := d; object := e |} (raycast meshRaycast (setFromCamera coords cam) e) ->
  (forall e' i, In e' objs -> isInteractable e' = true -> e' <> e ->
                In i (raycast meshRaycast (setFromCamera coords cam) e') ->
                d < distance i) ->
  pick meshRaycast coords cam objs = Some e.
Proof.
  intros He Hp Hd Hothers. unfold pick.
  destruct (head (intersects meshRaycast coords cam objs)) as [h|] eqn:Hh.
  - simpl. f_equal.
    pose proof (pick_minimal coords cam objs h {| distance := d; object := e |}
                             Hh He Hp Hd) as Hle. simpl in Hle.
    apply head_In, in_intersects in Hh as (Ho & Hpo & Hi).
    destruct (decide (object h = e)) as [E|N]; [exact E|].
    specialize (Hothers (object h) h Ho Hpo N Hi). lra.
  - exfalso.
    assert (In {| distance := d; object := e |} (intersects meshRaycast coords cam objs)) as Hin
        by (apply in_intersects; simpl; tauto).
    destruct (intersects meshRaycast coords cam objs); [contradiction | discriminate].
Qed.

(** C3.  When the ray meets pickable candidates and one of them, [e], is
    met at a distance [d] smaller than the distance of every intersection
    of every other pickable candidate, the pick returns [e]; and it
    returns [e] for every other ordering [objs'] of the candidates. *)
Theorem pick_nearest_any_order (coords : Vector2) (cam : PerspectiveCamera)
        (objs objs' : list Object3D.t) (e : Object3D.t) (d : Q) :
  Permutation objs objs' ->
  In e objs -> isInteractable e = true ->
  In {| distance := d; object := e |} (raycast meshRaycast (setFromCamera coords cam) e) ->
  (forall e' i, In e' objs -> isInteractable e' = true -> e' <> e ->
                In i (raycast meshRaycast (setFromCamera coords cam) e') ->
                d < distance i) ->
  pick meshRaycast coords cam objs = Some e /\
  pick meshRaycast coords cam objs' = Some e.
Proof.
  intros Hperm He Hp Hd Hothers. split.
  - now apply pick_nearest with d.
  - apply pick_nearest with d; try assumption.
    + eapply Permutation_in; eassumption.
    + intros e' i He'. apply Hothers.
      eapply Permutation_in; [symmetry|]; eassumption.
Qed.

Lemma pick_Some_inv (coords : Vector2) (cam : PerspectiveCamera)
      (objs : list Object3D.t) (o : Object3D.t) :
  pick meshRaycast coords cam objs = Some o ->
  isInteractable o = true /\ In o objs.
Proof.
  unfold pick. intros Hpick.
  destruct (head (intersects meshRaycast coords cam objs)) as [h|] eqn:Hh; [|discriminate].
  simpl in Hpick. injection Hpick as <-.
  apply head_In, in_intersects in Hh as (Ho & Hp & _). tauto.
Qed.

(** C4.  Whatever the ray meets and at whatever distances, the object the
    pick returns carries a truthy [isInteractable]; it is a candidate, and
    it is neither the floor nor a wall (nor a light). *)
Theorem pick_never_returns_structural (coords : Vector2) (cam : PerspectiveCamera)
        (objs : list Object3D.t) (o : Object3D.t) :
  pick meshRaycast coords cam objs = Some o ->
  isInteractable o = true /\ In o objs /\
  o <> floor /\ o <> backWall /\ o <> leftWall /\
  o <> ambientLight /\ o <> directionalLight.
Proof.
  intros Hpick. apply pick_Some_inv in Hpick as (Hp & Ho).
  destruct structural_not_interactable as (F & B & L & A & D).
  repeat split; try assumption; intros E; rewrite E in Hp; congruence.
Qed.

(** C5, as the code has it.  [getIntersects] hands every child of the
    scene to the intersection test, pickable or not, and filters the
    intersections afterwards; the intersections it returns are those the
    test yields on the pickable candidates alone. *)
Theorem getIntersects_filters_after (coords : Vector2) (cam : PerspectiveCamera)
        (objs : list Object3D.t) :
  tested (intersectObjects meshRaycast (setFromCamera coords cam) objs) = objs /\
  intersects meshRaycast coords cam objs =
  found (intersectsPrefiltered meshRaycast coords cam objs).
Proof.
  split; [apply intersectObjects_tested|].
  unfold intersects, intersectsPrefiltered.
  rewrite !intersectObjects_found, filter_sortByDistance.
  now rewrite filter_flat_map_raycast.
Qed.

End PickTheorems.

Lemma pick_nearest_any_order_witness :
  pick sampleRaycast centre sampleCamera (children mountedScene) = Some (makeMesh chairData) /\
  pick sampleRaycast centre sampleCamera (rev (children mountedScene)) = Some (makeMesh chairData).
Proof.
  apply (pick_nearest_any_order sampleRaycast centre sampleCamera
           (children mountedScene) (rev (children mountedScene))
           (makeMesh chairData) (5 - 1.5)).
  - apply Permutation_rev.
  - vm_compute. do 6 right. left. reflexivity.
  - reflexivity.
  - left. reflexivity.
  - intros e' i He' Hp Hne Hi.
    vm_compute in He'. split_In He'; vm_compute in Hp; try discriminate Hp;
      vm_compute in Hi; split_In Hi; try reflexivity.
    all: exfalso; apply Hne; reflexivity.
Defined.

Lemma pick_never_returns_structural_witness :
  object <$> head (found (intersectObjects sampleRaycast (setFromCamera centre sampleCamera)
                                           (children mountedScene))) = Some floor /\
  isInteractable (makeMesh chairData) = true /\
  In (makeMesh chairData) (children mountedScene) /\
  makeMesh chairData <> floor /\ makeMesh chairData <> backWall /\
  makeMesh chairData <> leftWall /\
  makeMesh chairData <> ambientLight /\ makeMesh chairData <> directionalLight.
Proof.
  split; [vm_compute; reflexivity|].
  apply (pick_never_returns_structural sampleRaycast centre sampleCamera
           (children mountedScene) (makeMesh chairData)).
  vm_compute. reflexivity.
Defined.

(** C5, as stated, fails on the mounted scene: the floor is handed to the
    intersection test although it is not pickable. *)
Lemma getIntersects_tests_structural :
  ~ (intersects sampleRaycast centre sampleCamera (children mountedScene) =
     found (intersectsPrefiltered sampleRaycast centre sampleCamera (children mountedScene)) /\
     Forall (fun o => isInteractable o = true)
            (tested (intersectObjects sampleRaycast (setFromCamera centre sampleCamera)
                                      (children mountedScene)))).
Proof.
  intros [_ H]. rewrite intersectObjects_tested in H.
  rewrite List.Forall_forall in H.
  assert (In floor (children mountedScene)) as Hin by (vm_compute; do 2 right; left; reflexivity).
  specialize (H floor Hin). discriminate H.
Qed.

(** ** The handlers *)

Lemma mountedScene_children :
  children mountedScene =
  [ambientLight; directionalLight; floor; backWall; leftWall;
   makeMesh tableData; makeMesh chairData; makeMesh lampData; makeMesh plantData].
Proof. reflexivity. Qed.

Lemma interactable_children (o : Object3D.t) :
  In o (children mountedScene) -> isInteractable o = true ->
  exists obj, In obj objectsData /\ o = makeMesh obj.
Proof.
  rewrite mountedScene_children. intros Hin Hp. simpl in Hin.
  destruct structural_not_interactable as (F & B & L & A & D).
  destruct Hin as [<-|[<-|[<-|[<-|[<-|[<-|[<-|[<-|[<-|[]]]]]]]]]]; try congruence.
  - exists tableData. split; [simpl; tauto | reflexivity].
  - exists chairData. split; [simpl; tauto | reflexivity].
  - exists lampData. split; [simpl; tauto | reflexivity].
  - exists plantData. split; [simpl; tauto | reflexivity].
Qed.

Section Handlers.

Variable meshRaycast : Ray -> Object3D.t -> list Q.

Lemma getIntersects_spec (s : State) (cam : PerspectiveCamera) (sc : Scene) :
  camera s = Some cam -> scene s = Some sc ->
  getIntersects meshRaycast s =
  Some (set_raycaster (setFromCamera (mouse s) cam) s,
        intersects meshRaycast (mouse s) cam (children sc)).
Proof. intros Hc Hs. unfold getIntersects. now rewrite Hc, Hs. Qed.

Lemma onClick_spec (s : State) (cam : PerspectiveCamera) (sc : Scene) :
  camera s = Some cam -> scene s = Some sc ->
  onClick meshRaycast s =
  Some (set_selectedObject
          (Object3D.userData <$> pick meshRaycast (mouse s) cam (children sc))
          (set_raycaster (setFromCamera (mouse s) cam) s)).
Proof.
  intros Hc Hs. unfold onClick. rewrite (getIntersects_spec s cam sc Hc Hs). simpl.
  unfold pick. now destruct (intersects meshRaycast (mouse s) cam (children sc)).
Qed.

Lemma checkIntersection_spec (s : State) (cam : PerspectiveCamera) (sc : Scene) :
  camera s = Some cam -> scene s = Some sc ->
  checkIntersection meshRaycast s =
  Some (set_cursor
          (match pick meshRaycast (mouse s) cam (children sc) with
           | Some _ => CursorPointer
           | None => CursorDefault
           end)
          (set_raycaster (setFromCamera (mouse s) cam) s)).
Proof.
  intros Hc Hs. unfold checkIntersection. rewrite (getIntersects_spec s cam sc Hc Hs). simpl.
  unfold pick. now destruct (intersects meshRaycast (mouse s) cam (children sc)).
Qed.

Lemma pick_mounted_selection (coords : Vector2) (cam : PerspectiveCamera) :
  selection_ok (Object3D.userData <$> pick meshRaycast coords cam (children mountedScene)).
Proof.
  destruct (pick meshRaycast coords cam (children mountedScene)) as [o|] eqn:Hp;
    [|now left].
  apply pick_Some_inv in Hp as (Hi & Hin).
  destruct (interactable_children o Hin Hi) as (obj & Hobj & ->).
  right. exists obj. split; [exact Hobj | reflexivity].
Qed.

End Handlers.

(** ** Life cycle *)

Section Lifecycle.

Variable meshRaycast : Ray -> Object3D.t -> list Q.

Lemma Inv_setup (h : Host) : Inv (setup h).
Proof.
  constructor; simpl; try discriminate; try tauto.
  now left.
Qed.

Lemma Inv_handlers_ready (s : State) :
  Inv s -> phase s = Mounted ->
  exists cam rend,
    camera s = Some cam /\ projection_current cam /\
    scene s = Some mountedScene /\ renderer s = Some rend.
Proof.
  intros I Hph. destruct (inv_built s I) as (Hs & (cam & Hc & Hp) & (rend & Hr)).
  - congruence.
  - now exists cam, rend.
Qed.

Lemma Inv_mount (s : State) :
  phase s = Created -> Inv s ->
  exists s', onMounted (set_lifecycle Mounted (Some SceneDiv) s) = Some s' /\ Inv s'.
Proof.
  intros Hph I. destruct (inv_created s I Hph) as (Hl & Ha & Hsel).
  eexists. split; [reflexivity|].
  constructor; simpl; try discriminate; try tauto.
  - intros _. split; [reflexivity|]. split; eexists; [split|]; reflexivity.
  - rewrite Hsel. now left.
Qed.

Lemma Inv_dispatch (e : Event) (s s' : State) :
  Inv s -> dispatch meshRaycast e s = Some s' -> Inv s'.
Proof.
  intros I Hd. destruct e; simpl in Hd.
  - (* Mount *)
    destruct (phase s) eqn:Hph; try (injection Hd as <-; exact I).
    destruct (Inv_mount s Hph I) as (s1 & H1 & I1). congruence.
  - (* Unmount *)
    destruct (phase s) eqn:Hph; try (injection Hd as <-; exact I).
    destruct (Inv_handlers_ready s I Hph) as (cam & rend & Hc & Hp & Hs & Hr).
    unfold onUnmounted in Hd. simpl in Hd. rewrite Hr in Hd. simpl in Hd.
    injection Hd as <-.
    constructor; simpl; try discriminate; try tauto.
    + intros _. split; [exact Hs|]. split; eauto.
    + apply (inv_selection s I).
  - (* Resize *)
    destruct (listeners s) eqn:Hl; [|injection Hd as <-; exact I].
    injection Hd as <-.
    destruct (inv_listeners s I Hl) as (Hph & Hcont).
    destruct (Inv_handlers_ready s I Hph) as (cam & rend & Hc & Hp & Hs & Hr).
    unfold handleResize. rewrite Hc, Hr.
    constructor; simpl; try (rewrite Hph; discriminate).
    + intros _. split; [exact Hs|]. split; eexists; [split|]; reflexivity.
    + intros _. tauto.
    + apply (inv_animating s I).
    + apply (inv_selection s I).
  - (* MouseMove *)
    destruct (listeners s) eqn:Hl; [|injection Hd as <-; exact I].
    destruct (inv_listeners s I Hl) as (Hph & Hcont).
    destruct (Inv_handlers_ready s I Hph) as (cam & rend & Hc & Hp & Hs & Hr).
    unfold onPointerMove in Hd. rewrite Hcont in Hd.
    rewrite (checkIntersection_spec meshRaycast _ cam mountedScene) in Hd by assumption.
    injection Hd as <-.
    constructor; simpl; try (rewrite Hph; discriminate).
    + intros _. split; [exact Hs|]. split; eauto.
    + intros _. tauto.
    + apply (inv_animating s I).
    + apply (inv_selection s I).
  - (* Click *)
    destruct (listeners s) eqn:Hl; [|injection Hd as <-; exact I].
    destruct (inv_listeners s I Hl) as (Hph & Hcont).
    destruct (Inv_handlers_ready s I Hph) as (cam & rend & Hc & Hp & Hs & Hr).
    rewrite (onClick_spec meshRaycast s cam mountedScene Hc Hs) in Hd.
    injection Hd as <-.
    constructor; simpl; try (rewrite Hph; discriminate).
    + intros _. split; [exact Hs|]. split; eauto.
    + intros _. tauto.
    + apply (inv_animating s I).
    + apply pick_mounted_selection.
  - (* AnimationFrame *)
    destruct (animating s) eqn:Ha; [|injection Hd as <-; exact I].
    pose proof (inv_animating s I Ha) as Hph.
    destruct (Inv_handlers_ready s I Hph) as (cam & rend & Hc & Hp & Hs & Hr).
    unfold animate in Hd. rewrite Hc, Hr, Hs in Hd. simpl in Hd.
    injection Hd as <-.
    constructor; simpl; try (rewrite Hph; discriminate).
    + intros _. split; [exact Hs|]. split; [|eauto].
      eexists. split; [reflexivity|]. exact Hp.
    + apply (inv_listeners s I).
    + intros _. exact Hph.
    + apply (inv_selection s I).
  - (* HostChange *)
    injection Hd as <-. destruct I. constructor; simpl; assumption.
Qed.

Lemma reachable_Inv (s : State) : reachable meshRaycast s -> Inv s.
Proof.
  induction 1 as [h | e s s' _ IH Hd].
  - apply Inv_setup.
  - exact (Inv_dispatch e s s' IH Hd).
Qed.

(** No handler throws in a state that satisfies the invariant. *)
Lemma dispatch_total (e : Event) (s : State) :
  Inv s -> exists s', dispatch meshRaycast e s = Some s'.
Proof.
  intros I. destruct e; simpl.
  - destruct (phase s) eqn:Hph; eauto.
  - destruct (phase s) eqn:Hph; eauto.
    destruct (Inv_handlers_ready s I Hph) as (cam & rend & Hc & Hp & Hs & Hr).
    unfold onUnmounted. simpl. rewrite Hr. simpl. eauto.
  - destruct (listeners s); eauto.
  - destruct (listeners s) eqn:Hl; eauto.
    destruct (inv_listeners s I Hl) as (Hph & Hcont).
    destruct (Inv_handlers_ready s I Hph) as (cam & rend & Hc & Hp & Hs & Hr).
    unfold onPointerMove. rewrite Hcont.
    rewrite (checkIntersection_spec meshRaycast _ cam mountedScene) by assumption. eauto.
  - destruct (listeners s) eqn:Hl; eauto.
    destruct (inv_listeners s I Hl) as (Hph & Hcont).
    destruct (Inv_handlers_ready s I Hph) as (cam & rend & Hc & Hp & Hs & Hr).
    rewrite (onClick_spec meshRaycast s cam mountedScene Hc Hs). eauto.
  - destruct (animating s) eqn:Ha; eauto.
    pose proof (inv_animating s I Ha) as Hph.
    destruct (Inv_handlers_ready s I Hph) as (cam & rend & Hc & Hp & Hs & Hr).
    unfold animate. rewrite Hc, Hr, Hs. simpl. eauto.
  - eauto.
Qed.

End Lifecycle.

(** ** Selection *)

Lemma meshUserData_nonempty (obj : InteractableObject.t) :
  meshUserData obj <> ∅.
Proof.
  intros E. assert (meshUserData obj !! "isInteractable" = Some (JBool true)) as H
      by apply lookup_insert_eq.
  rewrite E in H. discriminate H.
Qed.

Section Selection.

Variable meshRaycast : Ray -> Object3D.t -> list Q.

Lemma run_reachable (es : list Event) (s s' : State) :
  reachable meshRaycast s -> run meshRaycast es s = Some s' -> reachable meshRaycast s'.
Proof.
  revert s. induction es as [|e es IH]; intros s Hr Hrun; simpl in Hrun.
  - now injection Hrun as <-.
  - destruct (dispatch meshRaycast e s) as [s1|] eqn:Hd; [|discriminate].
    simpl in Hrun. eapply IH; [|exact Hrun].
    eapply reachable_step; eassumption.
Qed.

(** While the listeners are registered, everything a handler reads is
    defined. *)
Lemma listening_ready (s : State) :
  reachable meshRaycast s -> listeners s = true ->
  exists cam rend,
    camera s = Some cam /\ projection_current cam /\
    scene s = Some mountedScene /\ renderer s = Some rend /\
    container s = Some SceneDiv.
Proof.
  intros Hr Hl. apply reachable_Inv in Hr.
  destruct (inv_listeners s Hr Hl) as (Hph & Hcont).
  destruct (Inv_handlers_ready s Hr Hph) as (cam & rend & Hc & Hp & Hs & Hrend).
  exists cam, rend. tauto.
Qed.

(** C2.  A click, whatever the selection before it: when the pick hits
    [e] the selection becomes the metadata stored on [e], which for a mesh
    made from the template [obj] is the copy of [obj]; when the pick
    misses the selection becomes empty; and a hit on the entity already
    selected leaves the selection as it is. *)
Theorem onClick_commits_pick (s : State) (cam : PerspectiveCamera) (sc : Scene)
        (cx cy : Q) :
  listeners s = true -> camera s = Some cam -> scene s = Some sc ->
  exists s',
    dispatch meshRaycast (Click cx cy) s = Some s' /\
    (forall e, pick meshRaycast (mouse s) cam (children sc) = Some e ->
               selectedObject s' = Some (Object3D.userData e) /\
               forall obj, e = makeMesh obj -> selectedObject s' = Some (meshUserData obj)) /\
    (pick meshRaycast (mouse s) cam (children sc) = None -> selectedObject s' = None) /\
    (forall e, pick meshRaycast (mouse s) cam (children sc) = Some e ->
               selectedObject s = Some (Object3D.userData e) ->
               selectedObject s' = selectedObject s).
Proof.
  intros Hl Hc Hs. simpl. rewrite Hl, (onClick_spec meshRaycast s cam sc Hc Hs).
  eexists. split; [reflexivity|]. simpl.
  split; [|split].
  - intros e ->. split; [reflexivity|]. now intros obj ->.
  - intros ->. reflexivity.
  - intros e -> ->. reflexivity.
Qed.

(** C10.  In every state the component can reach, the selection is empty
    or is the metadata stored on the mesh of one of the four templates,
    that is the properties of the template with [isInteractable: true]
    added; it is never the (empty) metadata of the floor or of a wall. *)
Theorem selection_is_mesh_metadata (s : State) :
  reachable meshRaycast s ->
  (selectedObject s = None \/
   exists obj, In obj objectsData /\
               selectedObject s = Some (<["isInteractable" := JBool true]> (spread obj))) /\
  selectedObject s <> Some (Object3D.userData floor) /\
  selectedObject s <> Some (Object3D.userData backWall) /\
  selectedObject s <> Some (Object3D.userData leftWall).
Proof.
  intros Hr. apply reachable_Inv in Hr. pose proof (inv_selection s Hr) as Hsel.
  split; [exact Hsel|].
  destruct Hsel as [-> | (obj & _ & ->)]; repeat split; try discriminate;
    intros [= E]; exact (meshUserData_nonempty obj E).
Qed.

(** C7.  Two states that agree on [mouse], on [camera] and on the
    children of the scene get the same intersections from
    [getIntersects], whatever else differs (the ray left in the raycaster,
    the selection, the cursor); calling it again gives the same again; and
    the hover path and the click path decide on the same pick. *)
Theorem pick_deterministic (s1 s2 : State) (cam : PerspectiveCamera)
        (objs : list Object3D.t) :
  mouse s1 = mouse s2 ->
  camera s1 = Some cam -> camera s2 = Some cam ->
  children <$> scene s1 = Some objs -> children <$> scene s2 = Some objs ->
  exists r1 r2 hits,
    getIntersects meshRaycast s1 = Some (r1, hits) /\
    getIntersects meshRaycast s2 = Some (r2, hits) /\
    getIntersects meshRaycast r1 = Some (r1, hits) /\
    hits = intersects meshRaycast (mouse s1) cam objs /\
    exists h c,
      checkIntersection meshRaycast s1 = Some h /\
      onClick meshRaycast s2 = Some c /\
      cursor h = match pick meshRaycast (mouse s1) cam objs with
                 | Some _ => CursorPointer
                 | None => CursorDefault
                 end /\
      selectedObject c = Object3D.userData <$> pick meshRaycast (mouse s1) cam objs.
Proof.
  intros Hm Hc1 Hc2 Ho1 Ho2.
  destruct (scene s1) as [sc1|] eqn:Hs1; [|discriminate].
  destruct (scene s2) as [sc2|] eqn:Hs2; [|discriminate].
  simpl in Ho1, Ho2. injection Ho1 as Ho1. injection Ho2 as Ho2.
  exists (set_raycaster (setFromCamera (mouse s1) cam) s1),
         (set_raycaster (setFromCamera (mouse s2) cam) s2),
         (intersects meshRaycast (mouse s1) cam objs).
  rewrite (getIntersects_spec meshRaycast s1 cam sc1 Hc1 Hs1), Ho1.
  rewrite (getIntersects_spec meshRaycast s2 cam sc2 Hc2 Hs2), Ho2, <- Hm.
  split; [reflexivity|]. split; [reflexivity|]. split.
  { rewrite (getIntersects_spec meshRaycast _ cam sc1) by assumption.
    now rewrite Ho1. }
  split; [reflexivity|].
  rewrite (checkIntersection_spec meshRaycast s1 cam sc1 Hc1 Hs1), Ho1.
  rewrite (onClick_spec meshRaycast s2 cam sc2 Hc2 Hs2), Ho2, <- Hm.
  eexists _, _. split; [reflexivity|]. split; [reflexivity|]. simpl.
  split; [|reflexivity].
  now destruct (pick meshRaycast (mouse s1) cam objs).
Qed.

(** Without a camera the pick of [onClick] throws: the guarantee below
    rests on the scene being built before the listeners are added. *)
Lemma onClick_throws_without_camera (s : State) :
  camera s = None -> onClick meshRaycast s = None.
Proof. intros Hc. unfold onClick, getIntersects. now rewrite Hc. Qed.

(** C9.  In every state the component can reach: while the listeners are
    registered the camera is defined and its projection is the one of its
    current parameters, so the pick of a handler runs on that camera; a
    state without camera has no listener; and no delivery of an event
    throws. *)
Theorem pick_camera_established (s : State) :
  reachable meshRaycast s ->
  (listeners s = true ->
   exists cam s1 hits,
     camera s = Some cam /\ projection_current cam /\
     getIntersects meshRaycast s = Some (s1, hits) /\
     raycaster s1 = setFromCamera (mouse s) cam) /\
  (camera s = None -> listeners s = false) /\
  (forall e, exists s', dispatch meshRaycast e s = Some s').
Proof.
  intros Hr. split; [|split].
  - intros Hl. destruct (listening_ready s Hr Hl) as (cam & rend & Hc & Hp & Hs & _).
    exists cam. rewrite (getIntersects_spec meshRaycast s cam mountedScene Hc Hs).
    eexists _, _. repeat split; try reflexivity; assumption.
  - intros Hnone. destruct (listeners s) eqn:Hl; [|reflexivity].
    destruct (listening_ready s Hr Hl) as (cam & _ & Hc & _). congruence.
  - intros e. apply dispatch_total, reachable_Inv with meshRaycast, Hr.
Qed.

End Selection.

(** ** Pointer samples *)

Lemma js_div_rect_eq (a1 a2 b1 b2 : Q) (f : Q -> Q) :
  a1 == a2 -> b1 == b2 -> (forall p q, p == q -> f p == f q) ->
  jsnum_eq (f <$> js_div a1 b1) (f <$> js_div a2 b2).
Proof.
  intros Ha Hb Hf. unfold js_div.
  destruct (Qeq_bool b1 0) eqn:E1, (Qeq_bool b2 0) eqn:E2; simpl; try exact I.
  - apply Qeq_bool_iff in E1. apply Qeq_bool_neq in E2. apply E2. now rewrite <- Hb.
  - apply Qeq_bool_iff in E2. apply Qeq_bool_neq in E1. apply E1. now rewrite Hb.
  - apply Hf. now rewrite Ha, Hb.
Qed.

(** The conversion reads the rectangle and the pixel, nothing else. *)
Lemma toNormalizedCoordinates_rect_eq (r1 r2 : DOMRect) (cx cy : Q) :
  rect_eq r1 r2 ->
  vector2_eq (toNormalizedCoordinates r1 cx cy) (toNormalizedCoordinates r2 cx cy).
Proof.
  intros (Hl & Ht & Hw & Hh). unfold toNormalizedCoordinates, vector2_eq. simpl. split.
  - apply js_div_rect_eq; [now rewrite Hl | exact Hw |]. intros p q E. now rewrite E.
  - apply js_div_rect_eq; [now rewrite Ht | exact Hh |]. intros p q E. now rewrite E.
Qed.

Lemma inside_bounds (rect : DOMRect) (cx cy : Q) :
  inside rect cx cy ->
  exists mx my,
    toNormalizedCoordinates rect cx cy = {| x := Some mx; y := Some my |} /\
    -1 <= mx <= 1 /\ -1 <= my <= 1.
Proof.
  intros (Hx1 & Hx2 & Hy1 & Hy2).
  apply toNormalizedCoordinates_bounds; try split; lra.
Qed.

Section Pointer.

Variable meshRaycast : Ray -> Object3D.t -> list Q.

Lemma onPointerMove_mouse (s : State) (cx cy : Q) :
  reachable meshRaycast s -> listeners s = true ->
  exists s',
    dispatch meshRaycast (MouseMove cx cy) s = Some s' /\
    mouse s' = toNormalizedCoordinates (boundingClientRect (host s)) cx cy /\
    host s' = host s /\ camera s' = camera s /\ listeners s' = true.
Proof.
  intros Hr Hl.
  destruct (listening_ready meshRaycast s Hr Hl) as (cam & rend & Hc & _ & Hs & _ & Hcont).
  simpl. rewrite Hl. unfold onPointerMove. rewrite Hcont.
  rewrite (checkIntersection_spec meshRaycast _ cam mountedScene) by assumption.
  eexists. split; [reflexivity|]. simpl. auto.
Qed.



(** C8.  The surface may have moved or changed size since the last event
    (the host is now [h]).  A pointer move whose pixel lies inside the
    rectangle the surface has now stores the conversion made with that
    rectangle, and both coordinates are finite and within [-1, 1]. *)
Theorem pointer_sample_from_current_rect (s : State) (h : Host) (cx cy : Q) :
  reachable meshRaycast s -> listeners s = true ->
  inside (boundingClientRect h) cx cy ->
  exists s' mx my,
    run meshRaycast [HostChange h; MouseMove cx cy] s = Some s' /\
    mouse s' = toNormalizedCoordinates (boundingClientRect h) cx cy /\
    mouse s' = {| x := Some mx; y := Some my |} /\
    -1 <= mx <= 1 /\ -1 <= my <= 1.
Proof.
  intros Hr Hl Hin.
  assert (reachable meshRaycast (set_host h s)) as Hr'
      by (eapply reachable_step with (e := HostChange h); [exact Hr | reflexivity]).
  destruct (onPointerMove_mouse (set_host h s) cx cy Hr' Hl) as (s' & Hd & Hm & _).
  destruct (inside_bounds _ _ _ Hin) as (mx & my & E & Hx & Hy).
  exists s', mx, my. split.
  - change (run meshRaycast [HostChange h; MouseMove cx cy] s)
      with (s1 ← dispatch meshRaycast (MouseMove cx cy) (set_host h s); Some s1).
    now rewrite Hd.
  - simpl in Hm. rewrite Hm. auto.
Qed.

(** C6, as the code has it.  After the host changed to [h] and the resize
    handler ran, the coordinates of a pixel are those of before whenever
    the rectangle of the surface is the same, whatever happened to the
    window and the aspect ratio; so they differ only if the rectangle
    changed. *)
Theorem coordinates_follow_rect_only (s : State) (h : Host) (cx cy : Q) :
  reachable meshRaycast s -> listeners s = true ->
  exists s2 sb sa,
    run meshRaycast [HostChange h; Resize] s = Some s2 /\
    dispatch meshRaycast (MouseMove cx cy) s = Some sb /\
    dispatch meshRaycast (MouseMove cx cy) s2 = Some sa /\
    (rect_eq (boundingClientRect (host s)) (boundingClientRect h) ->
     vector2_eq (mouse sb) (mouse sa)) /\
    (~ vector2_eq (mouse sb) (mouse sa) ->
     ~ rect_eq (boundingClientRect (host s)) (boundingClientRect h)).
Proof.
  intros Hr Hl.
  destruct (onPointerMove_mouse s cx cy Hr Hl) as (sb & Hb & Hmb & _).
  assert (run meshRaycast [HostChange h; Resize] s = Some (handleResize (set_host h s))) as Hrun
      by (simpl; now rewrite Hl).
  pose proof (run_reachable meshRaycast _ _ _ Hr Hrun) as Hr2.
  assert (listeners (handleResize (set_host h s)) = true) as Hl2.
  { unfold handleResize. simpl. now destruct (camera s), (renderer s). }
  assert (host (handleResize (set_host h s)) = h) as Hh2.
  { unfold handleResize. simpl. now destruct (camera s), (renderer s). }
  destruct (onPointerMove_mouse _ cx cy Hr2 Hl2) as (sa & Ha & Hma & _).
  rewrite Hh2 in Hma.
  exists (handleResize (set_host h s)), sb, sa.
  split; [exact Hrun|]. split; [exact Hb|]. split; [exact Ha|].
  assert (rect_eq (boundingClientRect (host s)) (boundingClientRect h) ->
          vector2_eq (mouse sb) (mouse sa)) as Hsame.
  { intros E. rewrite Hmb, Hma. now apply toNormalizedCoordinates_rect_eq. }
  split; [exact Hsame|]. intros Hdiff E. exact (Hdiff (Hsame E)).
Qed.

End Pointer.

(** ** The theorems on sample runs *)

Lemma after_reachable (es : list Event) : reachable sampleRaycast (after es).
Proof.
  unfold after. destruct (run sampleRaycast es (setup sampleHost)) as [s|] eqn:E.
  - eapply run_reachable; [apply reachable_setup | exact E].
  - apply reachable_setup.
Qed.



Lemma onClick_commits_pick_witness :
  exists s',
    dispatch sampleRaycast (Click 400 300) (after [Mount; MouseMove 400 300]) = Some s' /\
    selectedObject s' = Some (meshUserData chairData).
Proof.
  destruct (onClick_commits_pick sampleRaycast (after [Mount; MouseMove 400 300])
                                 sampleCamera mountedScene 400 300)
    as (s' & Hd & Hhit & _); try (vm_compute; reflexivity).
  exists s'. split; [exact Hd|].
  destruct (Hhit (makeMesh chairData)) as [_ Hobj]; [vm_compute; reflexivity|].
  apply Hobj. reflexivity.
Defined.

Lemma pick_deterministic_witness :
  raycaster (after [Mount; MouseMove 400 300; AnimationFrame (vec3 0 3 6)]) <>
  raycaster (after [Mount; AnimationFrame (vec3 0 3 6); MouseMove 240 300;
                    Click 240 300; MouseMove 400 300]) /\
  exists hits,
    snd <$> getIntersects sampleRaycast
              (after [Mount; MouseMove 400 300; AnimationFrame (vec3 0 3 6)]) = Some hits /\
    snd <$> getIntersects sampleRaycast
              (after [Mount; AnimationFrame (vec3 0 3 6); MouseMove 240 300;
                      Click 240 300; MouseMove 400 300]) = Some hits.
Proof.
  split; [vm_compute; discriminate|].
  destruct (pick_deterministic sampleRaycast
              (after [Mount; MouseMove 400 300; AnimationFrame (vec3 0 3 6)])
              (after [Mount; AnimationFrame (vec3 0 3 6); MouseMove 240 300;
                      Click 240 300; MouseMove 400 300])
              (set_cameraPosition (vec3 0 3 6) sampleCamera)
              (children mountedScene))
    as (r1 & r2 & hits & H1 & H2 & _); try (vm_compute; reflexivity).
  exists hits. rewrite H1, H2. split; reflexivity.
Defined.

Lemma pick_camera_established_witness :
  exists cam s1 hits,
    camera (after [Mount]) = Some cam /\ projection_current cam /\
    getIntersects sampleRaycast (after [Mount]) = Some (s1, hits) /\
    raycaster s1 = setFromCamera (mouse (after [Mount])) cam.
Proof.
  apply (proj1 (pick_camera_established sampleRaycast (after [Mount])
                                        (after_reachable [Mount]))).
  reflexivity.
Defined.

Lemma selection_is_mesh_metadata_witness :
  selectedObject (after [Mount; MouseMove 400 300; Click 400 300]) =
  Some (meshUserData chairData) /\
  selectedObject (after [Mount; MouseMove 400 300; Click 400 300]) <>
  Some (Object3D.userData floor).
Proof.
  split; [vm_compute; reflexivity|].
  apply (selection_is_mesh_metadata sampleRaycast
           (after [Mount; MouseMove 400 300; Click 400 300])
           (after_reachable _)).
Defined.

Lemma pointer_sample_from_current_rect_witness :
  exists s' mx my,
    run sampleRaycast [HostChange movedHost; MouseMove 200 100] (after [Mount]) = Some s' /\
    mouse s' = toNormalizedCoordinates (boundingClientRect movedHost) 200 100 /\
    mouse s' = {| x := Some mx; y := Some my |} /\
    -1 <= mx <= 1 /\ -1 <= my <= 1.
Proof.
  apply (pointer_sample_from_current_rect sampleRaycast (after [Mount]) movedHost 200 100).
  - apply after_reachable.
  - reflexivity.
  - unfold inside. simpl. lra.
Defined.

(** C6, as stated, fails: the window and the surface go from 800 by 600 to
    1000 by 500, so the aspect ratio and the rectangle both change, and the
    pixel (0, 0) has the coordinates (-1, 1) before and after. *)
Lemma resize_keeps_corner_coordinates :
  exists s2 sb sa cam cam2,
    run sampleRaycast [HostChange widerHost; Resize] (after [Mount]) = Some s2 /\
    dispatch sampleRaycast (MouseMove 0 0) (after [Mount]) = Some sb /\
    dispatch sampleRaycast (MouseMove 0 0) s2 = Some sa /\
    camera (after [Mount]) = Some cam /\ camera s2 = Some cam2 /\
    ~ (~ vector2_eq (mouse sb) (mouse sa) <->
       (~ jsnum_eq (aspect cam) (aspect cam2) \/
        ~ rect_eq (boundingClientRect (host (after [Mount])))
                  (boundingClientRect (host s2)))).
Proof.
  exists (after [Mount; HostChange widerHost; Resize]),
         (after [Mount; MouseMove 0 0]),
         (after [Mount; HostChange widerHost; Resize; MouseMove 0 0]),
         sampleCamera,
         (updateProjectionMatrix (set_aspect (js_div 1000 500) sampleCamera)).
  repeat (split; [vm_compute; reflexivity|]).
  intros [_ Hback]. apply Hback.
  - left. vm_compute. discriminate.
  - vm_compute. split; reflexivity.
Qed.

Lemma coordinates_follow_rect_only_witness :
  exists s2 sb sa,
    run sampleRaycast [HostChange widerWindow; Resize] (after [Mount]) = Some s2 /\
    dispatch sampleRaycast (MouseMove 200 100) (after [Mount]) = Some sb /\
    dispatch sampleRaycast (MouseMove 200 100) s2 = Some sa /\
    vector2_eq (mouse sb) (mouse sa).
Proof.
  destruct (coordinates_follow_rect_only sampleRaycast (after [Mount]) widerWindow 200 100)
    as (s2 & sb & sa & H2 & Hb & Ha & Hsame & _).
  - apply after_reachable.
  - reflexivity.
  - exists s2, sb, sa. repeat split; try assumption;
      apply Hsame; repeat split; reflexivity.
Defined.

(** * Further properties of the component *)

(** ** Which handler writes what *)

Ltac handler_cases s Hd :=
  destruct s;
  unfold onUnmounted, handleResize, onPointerMove, checkIntersection,
    onClick, getIntersects, animate in Hd;
  simpl in Hd;
  repeat match type of Hd with
         | context [?c ≫= _] =>
             is_var c; destruct c; simpl in Hd; try discriminate Hd
         end;
  repeat match type of Hd with
         | context [match ?c with _ => _ end] =>
             destruct c; simpl in Hd; try discriminate Hd
         end;
  injection Hd as <-; reflexivity.

Section Frames.

Variable meshRaycast : Ray -> Object3D.t -> list Q.

(** The selection is written by the click handler alone: a pointer move, a
    resize, a frame, a change of the host, mounting and unmounting leave it
    as it is. *)
Theorem selection_written_by_click_only (e : Event) (s s' : State) :
  dispatch meshRaycast e s = Some s' ->
  (forall cx cy, e <> Click cx cy) ->
  selectedObject s' = selectedObject s.
Proof.
  intros Hd Hne. destruct e; try (exfalso; eapply Hne; reflexivity);
    unfold dispatch in Hd.
  - destruct (phase s); now injection Hd as <-.
  - destruct (phase s); try (now injection Hd as <-). handler_cases s Hd.
  - handler_cases s Hd.
  - handler_cases s Hd.
  - handler_cases s Hd.
  - now injection Hd as <-.
Qed.

(** The cursor is written by the pointer-move handler alone; in particular
    a click and a frame that moves the camera leave the cursor of the last
    pointer move. *)
Theorem cursor_written_by_pointer_move_only (e : Event) (s s' : State) :
  dispatch meshRaycast e s = Some s' ->
  (forall cx cy, e <> MouseMove cx cy) ->
  cursor s' = cursor s.
Proof.
  intros Hd Hne. destruct e; try (exfalso; eapply Hne; reflexivity);
    unfold dispatch in Hd.
  - destruct (phase s); now injection Hd as <-.
  - destruct (phase s); try (now injection Hd as <-). handler_cases s Hd.
  - handler_cases s Hd.
  - handler_cases s Hd.
  - handler_cases s Hd.
  - now injection Hd as <-.
Qed.

(** The scene is built by mounting and by nothing else: no handler adds,
    removes or replaces a child afterwards, unmounting included. *)
Theorem scene_written_by_mount_only (e : Event) (s s' : State) :
  dispatch meshRaycast e s = Some s' ->
  e <> Mount ->
  scene s' = scene s.
Proof.
  intros Hd Hne. destruct e; try (exfalso; apply Hne; reflexivity);
    unfold dispatch in Hd.
  - destruct (phase s); try (now injection Hd as <-). handler_cases s Hd.
  - handler_cases s Hd.
  - handler_cases s Hd.
  - handler_cases s Hd.
  - handler_cases s Hd.
  - now injection Hd as <-.
Qed.

End Frames.

(** ** Life cycle, continued *)

Ltac handler_steps Hd :=
  unfold onMounted, initScene, onUnmounted, handleResize, onPointerMove,
    checkIntersection, onClick, getIntersects, animate in Hd;
  simpl in Hd;
  repeat match type of Hd with
         | context [?c ≫= _] =>
             is_var c; destruct c; simpl in Hd; try discriminate Hd
         end;
  repeat match type of Hd with
         | context [match ?c with _ => _ end] =>
             destruct c; simpl in Hd; try discriminate Hd
         end;
  injection Hd as <-.

Section LifecycleFacts.

Variable meshRaycast : Ray -> Object3D.t -> list Q.

Lemma LifecycleInv_setup (h : Host) : LifecycleInv (setup h).
Proof. constructor; simpl; intros; try discriminate; tauto. Qed.

Lemma LifecycleInv_dispatch (e : Event) (s s' : State) :
  LifecycleInv s -> dispatch meshRaycast e s = Some s' -> LifecycleInv s'.
Proof.
  intros [Ic Im Iu] Hd. unfold dispatch in Hd.
  destruct s as [h ph cont sc cam rend anim lis ray m sel cur]; simpl in *.
  destruct ph.
  - destruct Ic as (-> & -> & -> & -> & -> & ->); [reflexivity|].
    destruct e; handler_steps Hd;
      constructor; simpl; intros; try discriminate; repeat split; eauto.
  - destruct Im as (-> & -> & -> & r & -> & Hdisp); [reflexivity|].
    destruct e; handler_steps Hd;
      constructor; simpl; intros; try discriminate; repeat split; eauto.
  - destruct Iu as (-> & -> & -> & r & -> & Hdisp); [reflexivity|].
    destruct e; handler_steps Hd;
      constructor; simpl; intros; try discriminate; repeat split; eauto.
Qed.

Lemma reachable_LifecycleInv (s : State) : reachable meshRaycast s -> LifecycleInv s.
Proof.
  induction 1 as [h | e s s' _ IH Hd].
  - apply LifecycleInv_setup.
  - exact (LifecycleInv_dispatch e s s' IH Hd).
Qed.

End LifecycleFacts.

Section Viewport.

Variable meshRaycast : Ray -> Object3D.t -> list Q.

Lemma viewport_consistent_setup (h : Host) : viewport_consistent (setup h).
Proof. intros cam rend Hc. discriminate Hc. Qed.

Lemma viewport_consistent_dispatch (e : Event) (s s' : State) :
  viewport_consistent s -> dispatch meshRaycast e s = Some s' -> viewport_consistent s'.
Proof.
  intros V Hd. unfold dispatch in Hd.
  destruct s as [h ph cont sc cam rend anim lis ray m sel cur].
  unfold viewport_consistent in *. simpl in *.
  destruct e; handler_steps Hd; simpl; try exact V;
    intros c r Hc Hr; try discriminate;
    try (injection Hc as <-); try (injection Hr as <-); simpl;
    try (destruct (V _ _ eq_refl eq_refl) as (Ha & Hf & Hn & Hfar & Hp));
    repeat split; try assumption; try reflexivity.
  all: unfold projection_current in *; simpl; try assumption.
  all: destruct (V c w Hc eq_refl) as (? & ? & ? & ? & ?); assumption.
Qed.

Lemma reachable_viewport_consistent (s : State) :
  reachable meshRaycast s -> viewport_consistent s.
Proof.
  induction 1 as [h | e s s' _ IH Hd].
  - apply viewport_consistent_setup.
  - exact (viewport_consistent_dispatch e s s' IH Hd).
Qed.

End Viewport.

(** ** The list of intersections, continued *)

Lemma insertByDistance_perm (i : Intersection) (l : list Intersection) :
  Permutation (insertByDistance i l) (i :: l).
Proof.
  induction l as [|j l IH]; simpl; [reflexivity|].
  destruct (Qle_bool (distance i) (distance j)); [reflexivity|].
  rewrite IH. apply perm_swap.
Qed.

Lemma sortByDistance_perm (l : list Intersection) : Permutation (sortByDistance l) l.
Proof.
  induction l as [|i l IH]; simpl; [reflexivity|].
  rewrite insertByDistance_perm. now constructor.
Qed.

(** The first element that is nearer than everything before it and not
    farther than anything after it comes out of the sort in front. *)
Lemma sortByDistance_head (A B : list Intersection) (i : Intersection) :
  (forall a, In a A -> distance i < distance a) ->
  (forall b, In b B -> distance i <= distance b) ->
  head (sortByDistance (A ++ i :: B)) = Some i.
Proof.
  intros HA HB. induction A as [|a A IH].
  - change (sortByDistance ([] ++ i :: B)) with (insertByDistance i (sortByDistance B)).
    rewrite insertByDistance_front; [reflexivity|].
    apply List.Forall_forall. intros k Hk. apply HB.
    exact (proj1 (in_sortByDistance k B) Hk).
  - assert (head (sortByDistance (A ++ i :: B)) = Some i) as Hh
        by (apply IH; intros a' Ha'; apply HA; now right).
    change (sortByDistance ((a :: A) ++ i :: B))
      with (insertByDistance a (sortByDistance (A ++ i :: B))).
    destruct (sortByDistance (A ++ i :: B)) as [|j l]; [discriminate|].
    simpl in Hh. injection Hh as ->. simpl.
    assert (distance i < distance a) as Hlt by (apply HA; now left).
    destruct (Qle_bool (distance a) (distance i)) eqn:E; [|reflexivity].
    apply Qle_bool_iff in E. lra.
Qed.

Section Hits.

Variable meshRaycast : Ray -> Object3D.t -> list Q.

(** What [getIntersects] returns, as a whole: sorted by distance with the
    nearest first, and holding each intersection of each interactable
    candidate exactly as often as the test reports it, so that no hit is
    lost and none is made up. *)
Theorem intersects_sorted_and_complete (coords : Vector2) (cam : PerspectiveCamera)
        (objs : list Object3D.t) :
  ascending (intersects meshRaycast coords cam objs) /\
  Permutation (intersects meshRaycast coords cam objs)
              (List.flat_map (raycast meshRaycast (setFromCamera coords cam))
                             (List.filter isInteractable objs)).
Proof.
  split; [apply intersects_ascending|].
  unfold intersects. rewrite intersectObjects_found, filter_sortByDistance.
  rewrite filter_flat_map_raycast. apply sortByDistance_perm.
Qed.

Lemma intersects_nil_iff (coords : Vector2) (cam : PerspectiveCamera)
      (objs : list Object3D.t) :
  intersects meshRaycast coords cam objs = [] <->
  forall o, In o objs -> isInteractable o = true ->
            raycast meshRaycast (setFromCamera coords cam) o = [].
Proof.
  split.
  - intros Hnil o Ho Hp.
    destruct (raycast meshRaycast (setFromCamera coords cam) o) as [|i l] eqn:E;
      [reflexivity|].
    assert (In i (raycast meshRaycast (setFromCamera coords cam) o)) as Hi
        by (rewrite E; now left).
    pose proof (raycast_object meshRaycast _ _ _ Hi) as Eo.
    assert (In i (intersects meshRaycast coords cam objs)) as Hin.
    { apply in_intersects. rewrite Eo. tauto. }
    rewrite Hnil in Hin. destruct Hin.
  - intros Hall.
    destruct (intersects meshRaycast coords cam objs) as [|i l] eqn:E; [reflexivity|].
    assert (In i (intersects meshRaycast coords cam objs)) as Hin
        by (rewrite E; now left).
    apply in_intersects in Hin as (Ho & Hp & Hi).
    rewrite (Hall _ Ho Hp) in Hi. destruct Hi.
Qed.

(** A tie is broken by the order of the scene: of the interactable
    candidates met at the smallest distance, the pick is the one that comes
    first among the children. *)
Theorem pick_tie_goes_to_earlier_child (coords : Vector2) (cam : PerspectiveCamera)
        (l1 l2 : list Object3D.t) (e : Object3D.t) (d : Q) :
  isInteractable e = true ->
  In {| distance := d; object := e |} (raycast meshRaycast (setFromCamera coords cam) e) ->
  (forall o i, In o l1 -> isInteractable o = true ->
               In i (raycast meshRaycast (setFromCamera coords cam) o) -> d < distance i) ->
  (forall o i, In o l2 -> isInteractable o = true ->
               In i (raycast meshRaycast (setFromCamera coords cam) o) -> d <= distance i) ->
  pick meshRaycast coords cam (l1 ++ e :: l2) = Some e.
Proof.
  intros Hp Hd H1 H2. unfold pick.
  set (ray := setFromCamera coords cam) in *.
  set (hits := fun l => List.flat_map (raycast meshRaycast ray) (List.filter isInteractable l)).
  assert (intersects meshRaycast coords cam (l1 ++ e :: l2) =
          sortByDistance (hits l1 ++ raycast meshRaycast ray e ++ hits l2)) as ->.
  { unfold intersects. fold ray.
    rewrite intersectObjects_found, filter_sortByDistance, filter_flat_map_raycast.
    unfold hits. rewrite List.filter_app. simpl. rewrite Hp.
    rewrite List.flat_map_app. reflexivity. }
  assert (forall l (P : Q -> Prop),
             (forall o i, In o l -> isInteractable o = true ->
                          In i (raycast meshRaycast ray o) -> P (distance i)) ->
             forall i, In i (hits l) -> P (distance i)) as Hhits.
  { intros l P HP i Hi. unfold hits in Hi.
    apply List.in_flat_map in Hi as (o & Ho & Hi).
    apply List.filter_In in Ho as (Ho & Hpo). eauto. }
  (* the first intersection of [e] that is nearest among those of [e] *)
  assert (forall R : list Intersection,
             R <> [] ->
             exists R1 i R2, R = R1 ++ i :: R2 /\
                             (forall a, In a R1 -> distance i < distance a) /\
                             (forall b, In b R2 -> distance i <= distance b)) as Hfirst.
  { induction R as [|j R IH]; intros Hne; [congruence|].
    destruct R as [|k R'].
    - exists [], j, []. split; [reflexivity|]. split; intros a [].
    - destruct IH as (R1 & i & R2 & E & Hlt & Hle); [discriminate|].
      destruct (Qlt_le_dec (distance i) (distance j)) as [Hij|Hji].
      + exists (j :: R1), i, R2. rewrite E. split; [reflexivity|].
        split; [|exact Hle]. intros a [<-|Ha]; auto.
      + exists [], j, (k :: R'). split; [reflexivity|]. split; [intros a []|].
        intros b Hb. rewrite E in Hb. apply in_app_or in Hb as [Hb|[<-|Hb]].
        * specialize (Hlt b Hb). lra.
        * exact Hji.
        * specialize (Hle b Hb). lra. }
  destruct (Hfirst (raycast meshRaycast ray e)) as (R1 & i & R2 & E & Hlt & Hle).
  { intros E. rewrite E in Hd. destruct Hd. }
  assert (object i = e) as Ei
      by (apply (raycast_object meshRaycast ray); rewrite E; apply in_elt).
  assert (distance i <= d) as Hid.
  { rewrite E in Hd. apply in_app_or in Hd as [Hd|[Heq|Hd]].
    - specialize (Hlt _ Hd). simpl in Hlt. lra.
    - rewrite Heq. simpl. lra.
    - specialize (Hle _ Hd). simpl in Hle. exact Hle. }
  rewrite E.
  replace (hits l1 ++ (R1 ++ i :: R2) ++ hits l2)
    with ((hits l1 ++ R1) ++ i :: (R2 ++ hits l2))
    by (rewrite <- !List.app_assoc; reflexivity).
  rewrite sortByDistance_head; [simpl; now rewrite Ei| |].
  - intros a Ha. apply in_app_or in Ha as [Ha|Ha]; [|now apply Hlt].
    pose proof (Hhits l1 (fun q => d < q) H1 a Ha) as Hda. simpl in Hda. lra.
  - intros b Hb. apply in_app_or in Hb as [Hb|Hb]; [now apply Hle|].
    pose proof (Hhits l2 (fun q => d <= q) H2 b Hb) as Hdb. simpl in Hdb. lra.
Qed.

End Hits.

(** ** The component between mount and unmount *)

Lemma meshUserData_lookups (obj : InteractableObject.t) :
  meshUserData obj !! "id" = Some (JString (InteractableObject.id obj)) /\
  meshUserData obj !! "name" = Some (JString (InteractableObject.name obj)) /\
  meshUserData obj !! "translation" = Some (JString (InteractableObject.translation obj)) /\
  meshUserData obj !! "type" =
    Some (JString (ShapeType_string (InteractableObject.type obj))) /\
  meshUserData obj !! "position" = Some (triple_array (InteractableObject.position obj)) /\
  meshUserData obj !! "color" = Some (JNumber (InteractableObject.color obj)) /\
  meshUserData obj !! "scale" = triple_array <$> InteractableObject.scale obj /\
  meshUserData obj !! "isInteractable" = Some (JBool true).
Proof.
  unfold meshUserData, spread.
  destruct (InteractableObject.scale obj); repeat split; reflexivity.
Qed.

(** The metadata stored on a mesh determines its template: two templates
    with the same stored metadata are the same template, field by field. *)
Theorem meshUserData_determines_template (obj obj' : InteractableObject.t) :
  meshUserData obj = meshUserData obj' -> obj = obj'.
Proof.
  intros E.
  destruct (meshUserData_lookups obj) as (I1 & N1 & T1 & Y1 & P1 & C1 & S1 & _).
  destruct (meshUserData_lookups obj') as (I2 & N2 & T2 & Y2 & P2 & C2 & S2 & _).
  rewrite E in I1, N1, T1, Y1, P1, C1, S1.
  rewrite I2 in I1. rewrite N2 in N1. rewrite T2 in T1. rewrite Y2 in Y1.
  rewrite P2 in P1. rewrite C2 in C1. rewrite S2 in S1.
  destruct obj as [i n t y p c sc], obj' as [i' n' t' y' p' c' sc']. simpl in *.
  injection I1 as ->. injection N1 as ->. injection T1 as ->. injection C1 as ->.
  assert (y' = y) as -> by (destruct y, y'; simpl in Y1; congruence).
  assert (p' = p) as ->.
  { destruct p as [[a b] c0], p' as [[a' b'] c0']. simpl in P1. congruence. }
  assert (sc' = sc) as ->.
  { destruct sc as [[[a b] c0]|], sc' as [[[a' b'] c0']|]; simpl in S1; congruence. }
  reflexivity.
Qed.

Section Behaviour.

Variable meshRaycast : Ray -> Object3D.t -> list Q.

(** What mounting sets up, unmounting takes down, and nothing else
    touches: the listeners are registered and a frame is requested exactly
    while the component is mounted; the renderer exists from the mount on
    and is disposed exactly after the unmount. *)
Theorem lifecycle_in_step (s : State) :
  reachable meshRaycast s ->
  (listeners s = true <-> phase s = Mounted) /\
  (animating s = true <-> phase s = Mounted) /\
  (renderer s = None <-> phase s = Created) /\
  (forall rend, renderer s = Some rend ->
                (disposed rend = true <-> phase s = Unmounted)).
Proof.
  intros Hr. destruct (reachable_LifecycleInv meshRaycast s Hr) as [Ic Im Iu].
  destruct (phase s).
  - destruct Ic as (_ & _ & Hrend & _ & Hl & Ha); [reflexivity|].
    rewrite Hrend, Hl, Ha. repeat split; intros; try discriminate; auto.
  - destruct Im as (Hl & Ha & _ & r & Hrend & Hd); [reflexivity|].
    rewrite Hrend, Hl, Ha. repeat split; intros; try discriminate; auto.
    injection H as <-. congruence.
  - destruct Iu as (Hl & Ha & _ & r & Hrend & Hd); [reflexivity|].
    rewrite Hrend, Hl, Ha. repeat split; intros; try discriminate; auto.
    injection H as <-. exact Hd.
Qed.

(** Before the mount and after the unmount the component is inert: a
    resize, a pointer move, a click, a frame or a second unmount changes
    nothing, so the selection shown at unmount stays as it is. *)
Theorem inert_unless_mounted (s : State) (e : Event) :
  reachable meshRaycast s ->
  phase s <> Mounted -> e <> Mount -> (forall h, e <> HostChange h) ->
  dispatch meshRaycast e s = Some s.
Proof.
  intros Hr Hph Hm Hh.
  destruct (reachable_LifecycleInv meshRaycast s Hr) as [Ic _ Iu].
  assert (listeners s = false /\ animating s = false) as [Hl' Ha'].
  { destruct (phase s); [destruct Ic as (_ & _ & _ & _ & ? & ?); auto
                        | now elim Hph
                        | destruct Iu as (? & ? & _); auto]. }
  destruct e; unfold dispatch; rewrite ?Hl', ?Ha'; try reflexivity.
  - now elim Hm.
  - destruct (phase s); try reflexivity. now elim Hph.
  - now elim (Hh h).
Qed.

(** The camera keeps the field of view and the clipping planes of
    [initScene], its projection is never stale, and its aspect ratio is
    always the quotient of the width and the height last given to the
    renderer: mounting and resizing write both together. *)
Theorem aspect_matches_renderer (s : State) (cam : PerspectiveCamera)
        (rend : WebGLRenderer) :
  reachable meshRaycast s ->
  camera s = Some cam -> renderer s = Some rend ->
  aspect cam = js_div (fst (size rend)) (snd (size rend)) /\
  fov cam = 75 /\ near cam = 0.1 /\ far cam = 1000 /\
  projection_current cam.
Proof.
  intros Hr. apply (reachable_viewport_consistent meshRaycast s Hr).
Qed.

(** A resize while mounted takes the size of the window as it is now:
    the renderer gets that size and the camera the quotient as aspect
    ratio, which is not finite when the window has no height, for the
    handler divides without a test; the camera stays where it is. *)
Theorem resize_takes_window_size (s : State) :
  reachable meshRaycast s -> listeners s = true ->
  exists s' cam cam' rend',
    dispatch meshRaycast Resize s = Some s' /\
    camera s = Some cam /\ camera s' = Some cam' /\ renderer s' = Some rend' /\
    size rend' = (innerWidth (window (host s)), innerHeight (window (host s))) /\
    aspect cam' = js_div (innerWidth (window (host s))) (innerHeight (window (host s))) /\
    (innerHeight (window (host s)) == 0 -> aspect cam' = None) /\
    cameraPosition cam' = cameraPosition cam /\
    mouse s' = mouse s /\ raycaster s' = raycaster s.
Proof.
  intros Hr Hl.
  destruct (listening_ready meshRaycast s Hr Hl) as (cam & rend & Hc & _ & _ & Hrend & _).
  unfold dispatch. rewrite Hl. unfold handleResize. rewrite Hc, Hrend.
  eexists _, cam, _, _. split; [reflexivity|]. simpl.
  repeat split; try assumption. intros Hz. now apply js_div_zero.
Qed.

(** Resizes do not accumulate: after two changes of the window, each
    followed by its resize event, the state is the one the second change
    and its resize alone would give. *)
Theorem last_resize_wins (s : State) (h1 h2 : Host) :
  run meshRaycast [HostChange h1; Resize; HostChange h2; Resize] s =
  run meshRaycast [HostChange h2; Resize] s.
Proof.
  destruct s as [h ph cont sc cam rend anim lis ray m sel cur].
  cbn [run dispatch mbind option_bind set_host listeners].
  unfold handleResize. simpl.
  destruct lis, cam, rend; reflexivity.
Qed.

(** A click deselects exactly when the ray through the stored sample
    meets no interactable child of the scene; what it meets of the floor
    and the walls does not count. *)
Theorem click_deselects_iff_nothing_hit (s : State) (cx cy : Q) :
  reachable meshRaycast s -> listeners s = true ->
  exists s' cam,
    dispatch meshRaycast (Click cx cy) s = Some s' /\
    camera s = Some cam /\
    (selectedObject s' = None <->
     forall obj, In obj objectsData ->
                 meshRaycast (setFromCamera (mouse s) cam) (makeMesh obj) = []).
Proof.
  intros Hr Hl.
  destruct (listening_ready meshRaycast s Hr Hl) as (cam & rend & Hc & _ & Hs & _).
  unfold dispatch. rewrite Hl, (onClick_spec meshRaycast s cam mountedScene Hc Hs).
  eexists _, cam. split; [reflexivity|]. split; [exact Hc|].
  cbn [selectedObject set_selectedObject]. unfold pick.
  assert (intersects meshRaycast (mouse s) cam (children mountedScene) = [] <->
          forall obj, In obj objectsData ->
                      meshRaycast (setFromCamera (mouse s) cam) (makeMesh obj) = []) as Hiff.
  { rewrite intersects_nil_iff. split.
    - intros Hall obj Hobj.
      assert (raycast meshRaycast (setFromCamera (mouse s) cam) (makeMesh obj) = []) as Hnil.
      { apply Hall; [|apply isInteractable_makeMesh].
        rewrite mountedScene_children. simpl in Hobj. simpl.
        destruct Hobj as [<-|[<-|[<-|[<-|[]]]]]; tauto. }
      unfold raycast in Hnil. simpl in Hnil.
      destruct (InteractableObject.type obj), (InteractableObject.scale obj);
        simpl in Hnil; now apply map_eq_nil in Hnil.
    - intros Hall o Ho Hp.
      destruct (interactable_children o Ho Hp) as (obj & Hobj & ->).
      unfold raycast. rewrite (Hall obj Hobj).
      unfold makeMesh. simpl.
      destruct (InteractableObject.type obj), (InteractableObject.scale obj); reflexivity. }
  rewrite <- Hiff.
  destruct (intersects meshRaycast (mouse s) cam (children mountedScene)); simpl;
    split; intros; congruence.
Qed.

(** The info card follows the selection: it is absent when nothing is
    selected, and otherwise shows the translation and the name of the
    template whose mesh was clicked, as plain text. *)
Theorem info_card_shows_template (s : State) :
  reachable meshRaycast s ->
  (selectedObject s = None /\ infoCard s = None) \/
  exists obj,
    In obj objectsData /\ selectedObject s = Some (meshUserData obj) /\
    infoCard s = Some {| japanese := Text (InteractableObject.translation obj);
                         english := Text (InteractableObject.name obj) |}.
Proof.
  intros Hr. apply reachable_Inv in Hr.
  destruct (inv_selection s Hr) as [Hnone | (obj & Hobj & Hsel)].
  - left. unfold infoCard. now rewrite Hnone.
  - right. exists obj. split; [exact Hobj|]. split; [exact Hsel|].
    unfold infoCard. rewrite Hsel.
    destruct (meshUserData_lookups obj) as (_ & Hn & Ht & _).
    now rewrite Hn, Ht.
Qed.

(** A pointer move followed at once by a click: the cursor left by the
    move is the pointer exactly when the click selects something, wherever
    the click itself is. *)
Theorem hover_cursor_announces_click (s : State) (mx my cx cy : Q) :
  reachable meshRaycast s -> listeners s = true ->
  exists s',
    run meshRaycast [MouseMove mx my; Click cx cy] s = Some s' /\
    (cursor s' = CursorPointer <-> selectedObject s' <> None) /\
    (cursor s' = CursorPointer <-> infoCard s' <> None).
Proof.
  intros Hr Hl.
  destruct (listening_ready meshRaycast s Hr Hl) as (cam & rend & Hc & _ & Hs & _ & Hcont).
  set (m := toNormalizedCoordinates (boundingClientRect (host s)) mx my).
  set (p := pick meshRaycast m cam (children mountedScene)).
  set (s1 := set_cursor (match p with Some _ => CursorPointer | None => CursorDefault end)
                        (set_raycaster (setFromCamera m cam) (set_mouse m s))).
  assert (dispatch meshRaycast (MouseMove mx my) s = Some s1) as H1.
  { unfold dispatch. rewrite Hl. unfold onPointerMove. rewrite Hcont.
    now rewrite (checkIntersection_spec meshRaycast _ cam mountedScene). }
  assert (dispatch meshRaycast (Click cx cy) s1 =
          Some (set_selectedObject (Object3D.userData <$> p)
                                   (set_raycaster (setFromCamera m cam) s1))) as H2.
  { unfold dispatch. change (listeners s1) with (listeners s). rewrite Hl.
    now rewrite (onClick_spec meshRaycast s1 cam mountedScene). }
  eexists. split.
  - change (run meshRaycast [MouseMove mx my; Click cx cy] s)
      with (s2 ← dispatch meshRaycast (MouseMove mx my) s;
            s3 ← dispatch meshRaycast (Click cx cy) s2; Some s3).
    rewrite H1. cbn [mbind option_bind]. rewrite H2. reflexivity.
  - unfold infoCard. cbn [cursor selectedObject set_selectedObject set_raycaster set_cursor s1].
    destruct p; simpl; split; split; intros; congruence.
Qed.


End Behaviour.

(** ** The conversion of a pixel, continued *)




(** ** The guards of the handlers *)

Section Guards.

Variable meshRaycast : Ray -> Object3D.t -> list Q.

(** Were the template ref not bound when the mounted hook runs:
    [initScene] returns at once and builds nothing, the hook registers the
    listeners all the same, and of the three handlers the pointer move and
    the resize return at their guard while the click, which has none,
    throws on the camera that is not there. *)
Theorem unbound_container_guards (s : State) (cx cy : Q) :
  container s = None -> camera s = None ->
  initScene s = Some s /\
  onMounted s = Some (set_listeners true s) /\
  dispatch meshRaycast (MouseMove cx cy) (set_listeners true s) = Some (set_listeners true s) /\
  dispatch meshRaycast Resize (set_listeners true s) = Some (set_listeners true s) /\
  dispatch meshRaycast (Click cx cy) (set_listeners true s) = None.
Proof.
  intros Hcont Hcam.
  assert (initScene s = Some s) as Hinit by (unfold initScene; now rewrite Hcont).
  split; [exact Hinit|]. split; [unfold onMounted; now rewrite Hinit|].
  unfold dispatch. cbn [listeners set_listeners].
  split; [unfold onPointerMove; cbn [container set_listeners]; now rewrite Hcont|].
  split; [unfold handleResize; cbn [camera set_listeners]; now rewrite Hcam|].
  unfold onClick, getIntersects. cbn [camera set_listeners]. now rewrite Hcam.
Qed.

(** The orbit controls move the camera on a frame; a click that follows
    picks through the stored sample with the camera where the frame left
    it, and the cursor still is the one of the last pointer move. *)
Theorem click_after_frame_uses_moved_camera (s : State) (p : Vector3) (cx cy : Q) :
  reachable meshRaycast s -> listeners s = true ->
  exists s' cam,
    run meshRaycast [AnimationFrame p; Click cx cy] s = Some s' /\
    camera s = Some cam /\
    raycaster s' = setFromCamera (mouse s) (set_cameraPosition p cam) /\
    selectedObject s' =
      Object3D.userData <$> pick meshRaycast (mouse s) (set_cameraPosition p cam)
                                 (children mountedScene) /\
    cursor s' = cursor s.
Proof.
  intros Hr Hl.
  destruct (listening_ready meshRaycast s Hr Hl) as (cam & rend & Hc & _ & Hs & Hrend & _).
  destruct (reachable_LifecycleInv meshRaycast s Hr) as [_ Im _].
  destruct (inv_listeners s (reachable_Inv meshRaycast s Hr) Hl) as (Hph & _).
  destruct (Im Hph) as (_ & Ha & _).
  set (s1 := set_animating true (set_camera (Some (set_cameraPosition p cam)) s)).
  assert (dispatch meshRaycast (AnimationFrame p) s = Some s1) as H1.
  { unfold dispatch. rewrite Ha. unfold animate. now rewrite Hc, Hrend, Hs. }
  assert (dispatch meshRaycast (Click cx cy) s1 =
          Some (set_selectedObject
                  (Object3D.userData <$> pick meshRaycast (mouse s) (set_cameraPosition p cam)
                                              (children mountedScene))
                  (set_raycaster (setFromCamera (mouse s) (set_cameraPosition p cam)) s1))) as H2.
  { unfold dispatch. change (listeners s1) with (listeners s). rewrite Hl.
    now rewrite (onClick_spec meshRaycast s1 (set_cameraPosition p cam) mountedScene). }
  eexists _, cam. split.
  - change (run meshRaycast [AnimationFrame p; Click cx cy] s)
      with (s2 ← dispatch meshRaycast (AnimationFrame p) s;
            s3 ← dispatch meshRaycast (Click cx cy) s2; Some s3).
    rewrite H1. cbn [mbind option_bind]. rewrite H2. reflexivity.
  - split; [exact Hc|]. repeat split.
Qed.

End Guards.

(** ** The further properties on sample runs *)

Lemma selection_written_by_click_only_witness :
  selectedObject (after [Mount; MouseMove 400 300; Click 400 300; MouseMove 240 300]) =
  selectedObject (after [Mount; MouseMove 400 300; Click 400 300]).
Proof.
  apply (selection_written_by_click_only sampleRaycast (MouseMove 240 300)).
  - vm_compute. reflexivity.
  - intros cx cy. discriminate.
Defined.

Lemma cursor_written_by_pointer_move_only_witness :
  cursor (after [Mount; MouseMove 400 300; AnimationFrame (vec3 0 3 6)]) =
  cursor (after [Mount; MouseMove 400 300]).
Proof.
  apply (cursor_written_by_pointer_move_only sampleRaycast (AnimationFrame (vec3 0 3 6))).
  - vm_compute. reflexivity.
  - intros cx cy. discriminate.
Defined.

Lemma scene_written_by_mount_only_witness :
  scene (after [Mount; Unmount]) = scene (after [Mount]).
Proof.
  apply (scene_written_by_mount_only sampleRaycast Unmount).
  - vm_compute. reflexivity.
  - discriminate.
Defined.

Lemma pick_tie_goes_to_earlier_child_witness :
  pick sampleRaycast centre sampleCamera [floor; makeMesh benchData; makeMesh tableData] =
  Some (makeMesh benchData) /\
  pick sampleRaycast centre sampleCamera [floor; makeMesh tableData; makeMesh benchData] =
  Some (makeMesh tableData).
Proof.
  split.
  - apply (pick_tie_goes_to_earlier_child sampleRaycast centre sampleCamera
             [floor] [makeMesh tableData] (makeMesh benchData) (5 - 0)).
    + reflexivity.
    + left. reflexivity.
    + intros o i Ho Hp. vm_compute in Ho. split_In Ho. discriminate Hp.
    + intros o i Ho Hp Hi. vm_compute in Ho. split_In Ho.
      vm_compute in Hi. split_In Hi; vm_compute; discriminate.
  - apply (pick_tie_goes_to_earlier_child sampleRaycast centre sampleCamera
             [floor] [makeMesh benchData] (makeMesh tableData) (5 - 0)).
    + reflexivity.
    + left. reflexivity.
    + intros o i Ho Hp. vm_compute in Ho. split_In Ho. discriminate Hp.
    + intros o i Ho Hp Hi. vm_compute in Ho. split_In Ho.
      vm_compute in Hi. split_In Hi; vm_compute; discriminate.
Defined.

Lemma lifecycle_in_step_witness :
  listeners (after [Mount; Unmount]) = false /\
  exists rend, renderer (after [Mount; Unmount]) = Some rend /\ disposed rend = true.
Proof.
  destruct (lifecycle_in_step sampleRaycast (after [Mount; Unmount]) (after_reachable _))
    as (_ & _ & _ & Hd).
  split; [reflexivity|].
  eexists. split; [reflexivity|]. apply (Hd _ eq_refl). reflexivity.
Defined.

Lemma inert_unless_mounted_witness :
  dispatch sampleRaycast (Click 240 300)
           (after [Mount; MouseMove 400 300; Click 400 300; Unmount]) =
  Some (after [Mount; MouseMove 400 300; Click 400 300; Unmount]) /\
  selectedObject (after [Mount; MouseMove 400 300; Click 400 300; Unmount]) =
  Some (meshUserData chairData).
Proof.
  split; [|vm_compute; reflexivity].
  apply (inert_unless_mounted sampleRaycast).
  - apply after_reachable.
  - vm_compute. discriminate.
  - discriminate.
  - intros h. discriminate.
Defined.

Lemma aspect_matches_renderer_witness :
  exists cam rend,
    camera (after [Mount; HostChange widerHost; Resize]) = Some cam /\
    renderer (after [Mount; HostChange widerHost; Resize]) = Some rend /\
    size rend = (1000, 500) /\ aspect cam = js_div 1000 500 /\ projection_current cam.
Proof.
  eexists _, _. split; [vm_compute; reflexivity|]. split; [vm_compute; reflexivity|].
  split; [reflexivity|].
  destruct (aspect_matches_renderer sampleRaycast
              (after [Mount; HostChange widerHost; Resize]) _ _
              (after_reachable _) eq_refl eq_refl) as (Ha & _ & _ & _ & Hp).
  split; [exact Ha | exact Hp].
Defined.

Lemma resize_takes_window_size_witness :
  exists s' cam',
    dispatch sampleRaycast Resize (after [Mount; HostChange collapsedHost]) = Some s' /\
    camera s' = Some cam' /\ aspect cam' = None.
Proof.
  destruct (resize_takes_window_size sampleRaycast (after [Mount; HostChange collapsedHost]))
    as (s' & cam & cam' & rend' & Hd & _ & Hc & _ & _ & _ & Hz & _).
  - apply after_reachable.
  - reflexivity.
  - exists s', cam'. split; [exact Hd|]. split; [exact Hc|]. apply Hz. reflexivity.
Defined.

Lemma click_deselects_iff_nothing_hit_witness :
  exists s',
    dispatch sampleRaycast (Click 100 100)
             (after [Mount; MouseMove 400 300; Click 400 300; MouseMove 100 100]) = Some s' /\
    selectedObject (after [Mount; MouseMove 400 300; Click 400 300; MouseMove 100 100]) =
    Some (meshUserData chairData) /\
    selectedObject s' = None.
Proof.
  destruct (click_deselects_iff_nothing_hit sampleRaycast
              (after [Mount; MouseMove 400 300; Click 400 300; MouseMove 100 100]) 100 100)
    as (s' & cam & Hd & Hc & Hiff).
  - apply after_reachable.
  - reflexivity.
  - exists s'. split; [exact Hd|]. split; [vm_compute; reflexivity|].
    apply Hiff. intros obj Hobj.
    assert (Some cam = Some sampleCamera) as Hcam by (rewrite <- Hc; vm_compute; reflexivity).
    injection Hcam as ->.
    vm_compute in Hobj. split_In Hobj; vm_compute; reflexivity.
Defined.

Lemma info_card_shows_template_witness :
  infoCard (after [Mount; MouseMove 400 300; Click 400 300]) =
  Some {| japanese := Text (InteractableObject.translation chairData);
          english := Text (InteractableObject.name chairData) |}.
Proof.
  destruct (info_card_shows_template sampleRaycast
              (after [Mount; MouseMove 400 300; Click 400 300]) (after_reachable _))
    as [[Hnone _] | (obj & _ & _ & _)].
  - vm_compute in Hnone. discriminate Hnone.
  - vm_compute. reflexivity.
Defined.

Lemma hover_cursor_announces_click_witness :
  exists s',
    run sampleRaycast [MouseMove 400 300; Click 10 10] (after [Mount]) = Some s' /\
    (cursor s' = CursorPointer <-> selectedObject s' <> None) /\
    (cursor s' = CursorPointer <-> infoCard s' <> None).
Proof.
  apply (hover_cursor_announces_click sampleRaycast (after [Mount]) 400 300 10 10).
  - apply after_reachable.
  - reflexivity.
Defined.


Lemma meshUserData_determines_template_witness :
  meshUserData chairData = meshUserData chairData /\ chairData = chairData.
Proof.
  split; [reflexivity|].
  apply (meshUserData_determines_template chairData chairData). reflexivity.
Defined.



Lemma unbound_container_guards_witness :
  onMounted (setup sampleHost) = Some (set_listeners true (setup sampleHost)) /\
  dispatch sampleRaycast (Click 400 300) (set_listeners true (setup sampleHost)) = None.
Proof.
  destruct (unbound_container_guards sampleRaycast (setup sampleHost) 400 300)
    as (_ & Hm & _ & _ & Hc); [reflexivity | reflexivity |].
  split; [exact Hm | exact Hc].
Defined.

Lemma click_after_frame_uses_moved_camera_witness :
  exists s' cam,
    run sampleRaycast [AnimationFrame (vec3 0 3 6); Click 10 10]
        (after [Mount; MouseMove 400 300]) = Some s' /\
    camera (after [Mount; MouseMove 400 300]) = Some cam /\
    raycaster s' = setFromCamera (mouse (after [Mount; MouseMove 400 300]))
                                 (set_cameraPosition (vec3 0 3 6) cam).
Proof.
  destruct (click_after_frame_uses_moved_camera sampleRaycast
              (after [Mount; MouseMove 400 300]) (vec3 0 3 6) 10 10)
    as (s' & cam & Hrun & Hc & Hray & _).
  - apply after_reachable.
  - reflexivity.
  - exists s', cam. split; [exact Hrun|]. split; [exact Hc | exact Hray].
Defined.
